(** * Email productivity agent: a shallow embedding of the backend

    The development follows the layout of the repository:

    - [PyStr]       the string operations of the Python runtime the code uses
                    ([strip], [split], [find], [rfind], slicing, [in]);
    - [Json]        the values [json.load]/[json.loads] produce;
    - [Py]          exceptions and the state-and-exception monad in which the
                    effectful functions run;
    - [Models]      backend/models.py;
    - [PromptsManager]  backend/prompts_manager.py;
    - [InboxLoader] backend/inbox_loader.py;
    - [LlmClient]   backend/llm_client.py;
    - [Processors]  backend/processors.py;
    - [Agent]       backend/agent.py;
    - [App]         the processing pass of app.py.

    A Python [str] is a sequence of Unicode code points and is modelled as
    [list N].  What lies outside the repository (the Unicode case mapping, the
    JSON decoder, the OpenAI client and service) is gathered in the class
    [Runtime]; every theorem holds for every runtime, and [ReferenceRuntime]
    supplies a computable instance for the worked examples. *)

From Stdlib Require Import ZArith NArith String Ascii DecimalString QArith SpecFloat.
From stdpp Require Import base option list gmap fin_maps.

#[local] Set Warnings "-register-all".
#[local] Open Scope Z_scope.

(* ===================================================================== *)
(** * Python strings *)
(* ===================================================================== *)

Module PyStr.

(** A [str] value: the list of its code points. *)
Definition pystr : Type := list N.

(** ** Literals

    String literals of the source are written as Rocq strings (which are byte
    strings holding the UTF-8 encoding) and decoded to code points. *)

Fixpoint bytes_of (s : string) : list N :=
  match s with
  | EmptyString => []
  | String a r => N_of_ascii a :: bytes_of r
  end.

Fixpoint utf8_decode (bs : list N) : pystr :=
  match bs with
  | [] => []
  | b :: r =>
      if (b <? 128)%N then b :: utf8_decode r
      else if (b <? 224)%N then
        match r with
        | c1 :: r1 => ((b - 192) * 64 + (c1 - 128))%N :: utf8_decode r1
        | _ => [b]
        end
      else if (b <? 240)%N then
        match r with
        | c1 :: c2 :: r2 =>
            ((b - 224) * 4096 + (c1 - 128) * 64 + (c2 - 128))%N :: utf8_decode r2
        | _ => [b]
        end
      else
        match r with
        | c1 :: c2 :: c3 :: r3 =>
            ((b - 240) * 262144 + (c1 - 128) * 4096 + (c2 - 128) * 64 + (c3 - 128))%N
              :: utf8_decode r3
        | _ => [b]
        end
  end.

(** [u "..."] is the [str] written ["..."] in the source. *)
Definition u (s : string) : pystr := utf8_decode (bytes_of s).

(** [jq "..."] is [u "..."] with every backquote replaced by a double quote:
    it lets JSON texts be written inside a Rocq string. *)
Definition jq (s : string) : pystr :=
  (fun c => if (c =? 96)%N then 34%N else c) <$> u s.

(** Code points of the characters the source names. *)
Definition LF : N := 10.
Definition LBRACKET : N := 91.
Definition RBRACKET : N := 93.

(** ** Equality *)

Definition str_eqb (a b : pystr) : bool := bool_decide (a = b).

(** ** [str.isspace] per character and [str.strip()]

    CPython's [Py_UNICODE_ISSPACE]: the characters [str.strip()] removes when
    called without argument. *)
Definition is_space (c : N) : bool :=
  ((9 <=? c) && (c <=? 13) || (28 <=? c) && (c <=? 32)
   || (c =? 133) || (c =? 160) || (c =? 5760)
   || (8192 <=? c) && (c <=? 8202)
   || (c =? 8232) || (c =? 8233) || (c =? 8239) || (c =? 8287)
   || (c =? 12288))%N.

Fixpoint lstrip (s : pystr) : pystr :=
  match s with
  | [] => []
  | c :: r => if is_space c then lstrip r else s
  end.

(** [rstrip] drops the maximal all-whitespace suffix. *)
Fixpoint rstrip (s : pystr) : pystr :=
  match s with
  | [] => []
  | c :: r =>
      match rstrip r with
      | [] => if is_space c then [] else [c]
      | r' => c :: r'
      end
  end.

Definition strip (s : pystr) : pystr := rstrip (lstrip s).

(** ** [s.split(sep)] for a one-character separator

    The result is never empty: [''.split(sep)] is [['']]. *)
Fixpoint split (sep : N) (s : pystr) : list pystr :=
  match s with
  | [] => [[]]
  | c :: r =>
      if (c =? sep)%N then [] :: split sep r
      else match split sep r with
           | [] => [[c]]
           | l :: ls => (c :: l) :: ls
           end
  end.

(** [xs[0]] on a list of strings known to be non-empty. *)
Definition first (xs : list pystr) : pystr := hd [] xs.

(** ** [sub in s] *)

Fixpoint starts_with (p s : pystr) : bool :=
  match p, s with
  | [], _ => true
  | _ :: _, [] => false
  | a :: p', b :: s' => (a =? b)%N && starts_with p' s'
  end.

Fixpoint contains (sub s : pystr) : bool :=
  starts_with sub s ||
  match s with
  | [] => false
  | _ :: r => contains sub r
  end.

(** ** [s.find(c)], [s.rfind(c)] for a one-character needle: an index, or -1 *)

Fixpoint find (c : N) (s : pystr) : Z :=
  match s with
  | [] => -1
  | x :: r =>
      if (x =? c)%N then 0
      else let i := find c r in if i <? 0 then -1 else i + 1
  end.

Fixpoint rfind (c : N) (s : pystr) : Z :=
  match s with
  | [] => -1
  | x :: r =>
      let i := rfind c r in
      if 0 <=? i then i + 1
      else if (x =? c)%N then 0 else -1
  end.

(** ** [s[a:b]] for [0 <= a]: the source only slices with indices it has
    checked to be non-negative, and as a prefix [s[:n]]. *)
Definition slice (s : pystr) (a b : Z) : pystr :=
  take (Z.to_nat b - Z.to_nat a)%nat (drop (Z.to_nat a) s).

(** ** [str(n)] / [f"{n}"] for an [int] *)
Definition of_Z (z : Z) : pystr := bytes_of (NilZero.string_of_int (Z.to_int z)).

(** ** [sep.join(xs)] *)
Fixpoint join (sep : pystr) (xs : list pystr) : pystr :=
  match xs with
  | [] => []
  | [x] => x
  | x :: r => x ++ sep ++ join sep r
  end.

(** The text before the first line feed: the first line. *)
Fixpoint line (s : pystr) : pystr :=
  match s with
  | [] => []
  | c :: r => if (c =? LF)%N then [] else c :: line r
  end.

(** Whitespace only. *)
Definition all_space (s : pystr) : bool := forallb is_space s.

(** Truthiness of a [str]. *)
Definition nonempty (s : pystr) : bool :=
  match s with [] => false | _ => true end.

(** The ASCII part of [str.lower()]: used by the reference runtime. *)
Definition ascii_lower (s : pystr) : pystr :=
  (fun c => if ((65 <=? c) && (c <=? 90))%N then (c + 32)%N else c) <$> s.

End PyStr.

Import PyStr.

(* ===================================================================== *)
(** * JSON values *)
(* ===================================================================== *)

Module Json.

(** What [json.loads] returns: [None], [bool], [int], [float], [str], [list]
    and [dict] with string keys.  Only the sign class of a [float] matters
    here (its truthiness), so it is kept as a [spec_float]. *)
Inductive json : Type :=
  | JNull
  | JBool (b : bool)
  | JInt (z : Z)
  | JFloat (f : spec_float)
  | JStr (s : pystr)
  | JArr (xs : list json)
  | JObj (m : gmap pystr json).

(** Python truthiness of such a value ([if v:]). *)
Definition truthy (v : json) : bool :=
  match v with
  | JNull => false
  | JBool b => b
  | JInt z => negb (z =? 0)
  | JFloat f => match f with S754_zero _ => false | _ => true end
  | JStr s => nonempty s
  | JArr xs => match xs with [] => false | _ => true end
  | JObj m => match map_to_list m with [] => false | _ => true end
  end.

(** [isinstance(v, dict)] *)
Definition is_dict (v : json) : bool :=
  match v with JObj _ => true | _ => false end.

End Json.

Import Json.

(* ===================================================================== *)
(** * Exceptions, the outside world, and the monad of effectful code *)
(* ===================================================================== *)

Module Py.

(** An exception, as far as the code looks at it: its class (always a
    subclass of [Exception]) and [str(e)]. *)
Record exn : Type := Exception { exn_class : pystr; exn_msg : pystr }.

Inductive outcome (A : Type) : Type :=
  | Ok (a : A)
  | Raise (e : exn).
Arguments Ok {A} a.
Arguments Raise {A} e.

(** One [client.chat.completions.create(...)] call. *)
Record request : Type := Request {
  req_api_key : pystr;
  req_model : pystr;
  req_system : pystr;       (* content of the "system" message *)
  req_user : pystr;         (* content of the "user" message *)
  req_temperature : Q;
  req_max_tokens : Z
}.

(** The response object, reduced to what the code reads:
    [response.choices[i].message.content], which may be [None]. *)
Definition chat_completion : Type := list (option pystr).

(** The mutable surroundings: process environment, the requests sent to the
    service so far, and the wall clock reading [datetime.now().isoformat()]. *)
Record world : Type := World {
  environ : gmap pystr pystr;
  sent : list request;
  clock : pystr
}.

(** What Python and the OpenAI service contribute.  The service may answer
    differently each time: its answer depends on the requests sent before. *)
Class Runtime : Type := {
  str_lower : pystr → pystr;                       (* str.lower() *)
  json_loads : pystr → outcome json;               (* json.loads *)
  py_repr : json → pystr;                          (* str(v) for a non-str v *)
  openai_client : pystr → outcome unit;            (* OpenAI(api_key=...) *)
  openai_create : list request → request → outcome chat_completion
}.

(** State threaded through, exceptions propagated. *)
Definition M (A : Type) : Type := world → outcome A * world.

#[global] Instance M_ret : MRet M := λ A a w, (Ok a, w).

#[global] Instance M_bind : MBind M := λ A B f m w,
  match m w with
  | (Ok a, w') => f a w'
  | (Raise e, w') => (Raise e, w')
  end.

Definition lift {A} (o : outcome A) : M A := λ w, (o, w).

(** [try: body  except Exception as e: handler e] *)
Definition try_except {A} (body : M A) (handler : exn → M A) : M A := λ w,
  match body w with
  | (Ok a, w') => (Ok a, w')
  | (Raise e, w') => handler e w'
  end.

(** [os.getenv(name)] and [os.getenv(name, default)] *)
Definition getenv (name : pystr) : M (option pystr) := λ w,
  (Ok (environ w !! name), w).

Definition getenv_default (name dflt : pystr) : M pystr := λ w,
  (Ok (default dflt (environ w !! name)), w).

(** [datetime.now().isoformat()] *)
Definition now_isoformat : M pystr := λ w, (Ok (clock w), w).

(** [d.get(key, default)] on a [Dict[str, str]] *)
Definition dict_get (d : gmap pystr pystr) (key dflt : pystr) : pystr :=
  default dflt (d !! key).

(** [v or w] on optional strings: [None] and [''] are falsy. *)
Definition opt_truthy (o : option pystr) : bool :=
  match o with Some s => nonempty s | None => false end.

(** Formatting a value inside an f-string: a [str] is inserted as it is. *)
Definition format `{RT : Runtime} (v : json) : pystr :=
  match v with
  | JStr s => s
  | _ => py_repr v
  end.

(** Exceptions alone, for code that touches no state. *)
#[global] Instance outcome_ret : MRet outcome := λ A a, Ok a.

#[global] Instance outcome_bind : MBind outcome := λ A B f o,
  match o with
  | Ok a => f a
  | Raise e => Raise e
  end.

Definition catch {A} (body : outcome A) (handler : exn → outcome A) : outcome A :=
  match body with
  | Ok a => Ok a
  | Raise e => handler e
  end.

(** The state of a JSON file at a path, as [os.path.exists], [open] and
    [json.load] find it: no such file; a file that cannot be opened or
    decoded; a file whose decoded content is [a]. *)
Inductive file (A : Type) : Type :=
  | Missing
  | Unreadable (e : exn)
  | Holds (a : A).
Arguments Missing {A}.
Arguments Unreadable {A} e.
Arguments Holds {A} a.

Definition path_exists {A} (f : file A) : bool :=
  match f with Missing => false | _ => true end.

Definition FileNotFoundError (msg : pystr) : exn := Exception (u "FileNotFoundError") msg.

(** [with open(path) as f: json.load(f)] *)
Definition open_json_load {A} (f : file A) : outcome A :=
  match f with
  | Holds a => Ok a
  | Unreadable e => Raise e
  | Missing => Raise (FileNotFoundError (u "No such file or directory"))
  end.

Definition AttributeError (msg : pystr) : exn := Exception (u "AttributeError") msg.
Definition IndexError (msg : pystr) : exn := Exception (u "IndexError") msg.
Definition TypeError (msg : pystr) : exn := Exception (u "TypeError") msg.

End Py.

Import Py.

(* ===================================================================== *)
(** * backend/models.py *)
(* ===================================================================== *)

Module Models.

Record Email : Type := mkEmail {
  id : Z;
  from_addr : pystr;
  to_addr : pystr;
  subject : pystr;
  body : pystr;
  timestamp : pystr;
  raw_folder : pystr;
  category : option pystr
}.

(** The assignment [email.category = c]. *)
Definition set_category (e : Email) (c : option pystr) : Email :=
  mkEmail (id e) (from_addr e) (to_addr e) (subject e) (body e)
          (timestamp e) (raw_folder e) c.

(** The fields of an [ActionItem] are annotated [str] and [Optional[str]],
    but [extract_action_items] stores whatever the decoded JSON holds, so
    they are JSON values here; [JNull] is [None]. *)
Record ActionItem : Type := mkActionItem {
  task : json;
  deadline : json;
  email_id : option Z
}.

Record DraftEmail : Type := mkDraftEmail {
  original_email_id : Z;
  draft_subject : pystr;
  draft_body : pystr;
  suggested_tone : option pystr;
  metadata : gmap pystr (option pystr);
  created_at : pystr
}.

End Models.

Import Models.

(* ===================================================================== *)
(** * backend/prompts_manager.py *)
(* ===================================================================== *)

Module PromptsManager.

(** The five template slots. *)
Definition slots : list pystr :=
  [u "categorization"; u "action_item"; u "auto_reply"; u "summary";
   u "general_agent"].

Definition get_default_prompts : gmap pystr pystr :=
  list_to_map
    [ (u "categorization",
       u "Categorize this email into one of: Important, Newsletter, Spam, To-Do. To-Do emails must include a direct request requiring user action. Respond with only the category name.");
      (u "action_item",
       jq "Extract tasks from the email. Respond in JSON list format: [ { `task`: `...`, `deadline`: `...` } ]. If no tasks, return an empty list [].");
      (u "auto_reply",
       u "If the email is a meeting request, draft a polite, concise reply asking for an agenda and proposing 1-2 time slots. Maintain a professional tone.");
      (u "summary",
       u "Summarize the following email in 2–3 bullet points, focusing on key information and any required actions.");
      (u "general_agent",
       u "You are an Email Productivity Agent helping the user manage their inbox. Always use the stored prompts as behavioral instructions whenever relevant.") ].

(** [load_prompts(path)], given the state of the file at [path].  The
    decoded object is taken to be a [Dict[str, str]], the declared return
    type. *)
Definition load_prompts (f : file (gmap pystr pystr)) : outcome (gmap pystr pystr) :=
  catch
    (if negb (path_exists f) then
       mret get_default_prompts
     else
       prompts ← open_json_load f;
       mret prompts)
    (λ e, mret get_default_prompts).

(** Every slot is a key of the template set. *)
Definition has_all_slots (prompts : gmap pystr pystr) : Prop :=
  ∀ k, k ∈ slots → is_Some (prompts !! k).

End PromptsManager.

(* ===================================================================== *)
(** * backend/inbox_loader.py *)
(* ===================================================================== *)

Module InboxLoader.

(** A record object of the source file as [item.get] sees it: each of the
    seven keys is absent, or holds a value of the type the [Email] dataclass
    declares for the field. *)
Record item : Type := mkItem {
  item_id : option Z;
  item_from : option pystr;
  item_to : option pystr;
  item_subject : option pystr;
  item_body : option pystr;
  item_timestamp : option pystr;
  item_raw_folder : option pystr
}.

(** What iterating the decoded document yields: a [dict], or a value that has
    no [get] method. *)
Inductive element : Type :=
  | Object (it : item)
  | NotObject.

(** The decoded document: something [for item in data] can iterate, or not
    (a number, a boolean, [None]). *)
Inductive document : Type :=
  | Iterable (xs : list element)
  | NotIterable.

(** The body of the inner [try]: build one [Email]. *)
Definition parse_item (el : element) : outcome Email :=
  match el with
  | Object it =>
      Ok (mkEmail
            (default 0 (item_id it))
            (default (u "unknown@example.com") (item_from it))
            (default (u "user@company.com") (item_to it))
            (default (u "No Subject") (item_subject it))
            (default (u "") (item_body it))
            (default (u "") (item_timestamp it))
            (default (u "INBOX") (item_raw_folder it))
            None)
  | NotObject => Raise (AttributeError (u "object has no attribute 'get'"))
  end.

(** The [for item in data] loop; [emails] is the list built so far. *)
Fixpoint load_items (data : list element) (emails : list Email) : list Email :=
  match data with
  | [] => emails
  | el :: rest =>
      match parse_item el with
      | Ok email => load_items rest (emails ++ [email])
      | Raise _ => load_items rest emails          (* except ...: continue *)
      end
  end.

(** [load_inbox(path)], given the state of the file at [path]. *)
Definition load_inbox (f : file document) : outcome (list Email) :=
  catch
    (if negb (path_exists f) then
       mret []
     else
       data ← open_json_load f;
       match data with
       | Iterable xs => mret (load_items xs [])
       | NotIterable => Raise (TypeError (u "object is not iterable"))
       end)
    (λ e, mret []).

(** [get_email_by_id]: [None] is modelled by [None]. *)
Fixpoint get_email_by_id (emails : list Email) (email_id : Z) : option Email :=
  match emails with
  | [] => None
  | email :: rest =>
      if id email =? email_id then Some email
      else get_email_by_id rest email_id
  end.

End InboxLoader.

(* ===================================================================== *)
(** * backend/llm_client.py *)
(* ===================================================================== *)

Module LlmClient.

Definition MSG_NO_API_KEY : pystr :=
  u "⚠️ Error: OPENAI_API_KEY not found in environment variables. Please set it in your .env file or Streamlit secrets.".

Definition MSG_AUTHENTICATION : pystr :=
  u "⚠️ Authentication Error: Invalid API key. Please check your OPENAI_API_KEY.".

Definition MSG_RATE_LIMIT : pystr :=
  u "⚠️ Rate Limit Error: Too many requests. Please wait a moment and try again.".

(** [client.chat.completions.create(...)]: the request is sent and logged. *)
Definition chat_completions_create `{RT : Runtime} (r : request) : M chat_completion :=
  λ w, (openai_create (sent w) r, World (environ w) (sent w ++ [r]) (clock w)).

(** [response.choices[0].message.content.strip()] *)
Definition first_choice_stripped (response : chat_completion) : outcome pystr :=
  match response with
  | [] => Raise (IndexError (u "list index out of range"))
  | None :: _ => Raise (AttributeError (u "'NoneType' object has no attribute 'strip'"))
  | Some content :: _ => Ok (strip content)
  end.

(** The [except Exception as e] branch. *)
Definition describe_error `{RT : Runtime} (e : exn) : pystr :=
  let error_msg := exn_msg e in
  if contains (u "authentication") (str_lower error_msg)
     || contains (u "api_key") (str_lower error_msg) then
    MSG_AUTHENTICATION
  else if contains (u "rate_limit") (str_lower error_msg) then
    MSG_RATE_LIMIT
  else if contains (u "model") (str_lower error_msg) then
    u "⚠️ Model Error: The specified model may not be available. Error: " ++ error_msg
  else
    u "⚠️ LLM Error: " ++ error_msg.

Definition call_llm `{RT : Runtime} (system_prompt user_content : pystr)
    (model : option pystr) : M pystr :=
  try_except
    (api_key ← getenv (u "OPENAI_API_KEY");
     if negb (opt_truthy api_key) then
       mret MSG_NO_API_KEY
     else
       let api_key := default [] api_key in
       _ ← lift (openai_client api_key);
       model_name ← (if opt_truthy model then mret (default [] model)
                     else getenv_default (u "MODEL_NAME") (u "gpt-4o-mini"));
       response ← chat_completions_create
                    (Request api_key model_name system_prompt user_content
                             (7 # 10)%Q 1000);
       lift (first_choice_stripped response))
    (λ e, mret (describe_error e)).

Definition call_llm_with_json `{RT : Runtime} (system_prompt user_content : pystr)
    (model : option pystr) : M pystr :=
  let enhanced_system :=
    system_prompt ++ [LF; LF] ++ u "IMPORTANT: Respond with valid JSON only, no additional text." in
  call_llm enhanced_system user_content model.

End LlmClient.

(* ===================================================================== *)
(** * backend/processors.py *)
(* ===================================================================== *)

Module Processors.

Import LlmClient.

Definition valid_categories : list pystr :=
  [u "Important"; u "Newsletter"; u "Spam"; u "To-Do"].

(** The user message of [categorize_email]; [extract_action_items] builds
    the same f-string. *)
Definition email_text (email : Email) : pystr :=
  u "Subject: " ++ subject email ++ [LF] ++
  u "From: " ++ from_addr email ++ [LF] ++
  [LF] ++
  body email.

Definition categorize_email `{RT : Runtime} (email : Email)
    (prompts : gmap pystr pystr) : M pystr :=
  let user_content := email_text email in
  let system_prompt := dict_get prompts (u "categorization") (u "Categorize this email.") in
  response ← call_llm system_prompt user_content None;
  let category := strip (first (split LF (strip response))) in
  let category :=
    if negb (bool_decide (category ∈ valid_categories)) then u "Important"
    else category in
  mret category.

(** [for task_dict in tasks_data]: what the iteration yields, or the
    [TypeError] of a value that is not iterable.  A [dict] yields its keys
    and a [str] its characters, all of them strings. *)
Definition iterate (v : json) : outcome (list json) :=
  match v with
  | JArr xs => Ok xs
  | JObj m => Ok (JStr <$> (map_to_list m).*1)
  | JStr s => Ok ((λ c, JStr [c]) <$> s)
  | _ => Raise (TypeError (u "object is not iterable"))
  end.

(** The conversion loop; [action_items] is the list built so far. *)
Fixpoint convert (email : Email) (tasks : list json)
    (action_items : list ActionItem) : list ActionItem :=
  match tasks with
  | [] => action_items
  | task_dict :: rest =>
      match task_dict with
      | JObj d =>
          let action_item :=
            mkActionItem (default (JStr (u "")) (d !! u "task"))
                         (default JNull (d !! u "deadline"))
                         (Some (id email)) in
          convert email rest (action_items ++ [action_item])
      | _ => convert email rest action_items
      end
  end.

(** The text handed to [json.loads]: the bracketed part when there is one,
    the whole response otherwise. *)
Definition json_text (response : pystr) : pystr :=
  let json_start := find LBRACKET response in
  let json_end := rfind RBRACKET response + 1 in
  if (0 <=? json_start) && (json_start <? json_end) then
    slice response json_start json_end
  else
    response.

(** The body of the [try] block. *)
Definition parse_action_items `{RT : Runtime} (email : Email) (response : pystr)
    : outcome (list ActionItem) :=
  tasks_data ← json_loads (json_text response);
  tasks ← iterate tasks_data;
  mret (convert email tasks []).

Definition extract_action_items `{RT : Runtime} (email : Email)
    (prompts : gmap pystr pystr) : M (list ActionItem) :=
  let user_content := email_text email in
  let system_prompt := dict_get prompts (u "action_item") (u "Extract tasks from the email.") in
  response ← call_llm_with_json system_prompt user_content None;
  try_except
    (lift (parse_action_items email response))
    (λ e, mret []).

Definition summary_text (email : Email) : pystr :=
  u "Subject: " ++ subject email ++ [LF] ++
  u "From: " ++ from_addr email ++ [LF] ++
  u "Date: " ++ timestamp email ++ [LF] ++
  [LF] ++
  body email.

Definition summarize_email `{RT : Runtime} (email : Email)
    (prompts : gmap pystr pystr) : M pystr :=
  let user_content := summary_text email in
  let system_prompt := dict_get prompts (u "summary") (u "Summarize this email.") in
  response ← call_llm system_prompt user_content None;
  mret response.

(** The system prompt of [draft_reply], with the tone line when a tone is
    given ([if user_tone:]). *)
Definition reply_system_prompt (prompts : gmap pystr pystr)
    (user_tone : option pystr) : pystr :=
  let system_prompt := dict_get prompts (u "auto_reply") (u "Draft a professional reply.") in
  if opt_truthy user_tone then
    system_prompt ++ [LF; LF] ++ u "Tone: " ++ default [] user_tone
  else system_prompt.

Definition reply_user_content (email : Email) : pystr :=
  u "Original Email:" ++ [LF] ++
  u "Subject: " ++ subject email ++ [LF] ++
  u "From: " ++ from_addr email ++ [LF] ++
  u "Date: " ++ timestamp email ++ [LF] ++
  [LF] ++
  body email ++ [LF] ++
  [LF] ++
  u "---" ++ [LF] ++
  u "Draft a reply to this email.".

Definition draft_reply `{RT : Runtime} (email : Email) (prompts : gmap pystr pystr)
    (user_tone : option pystr) : M DraftEmail :=
  let user_content := reply_user_content email in
  let system_prompt := reply_system_prompt prompts user_tone in
  response ← call_llm system_prompt user_content None;
  let draft_subject := u "Re: " ++ subject email in
  created ← now_isoformat;
  mret (mkDraftEmail
          (id email)
          draft_subject
          response
          user_tone
          (<[u "original_from" := Some (from_addr email)]>
             (<[u "original_subject" := Some (subject email)]>
                (<[u "category" := category email]> ∅)))
          created).

End Processors.

(* ===================================================================== *)
(** * backend/agent.py *)
(* ===================================================================== *)

Module Agent.

Import LlmClient Processors.

(** [x or 'Uncategorized'] for an optional category. *)
Definition category_or_uncategorized (c : option pystr) : pystr :=
  if opt_truthy c then default [] c else u "Uncategorized".

(** [categories[cat] = categories.get(cat, 0) + 1] on a [dict], which keeps
    its keys in insertion order. *)
Fixpoint count_up (cat : pystr) (categories : list (pystr * Z)) : list (pystr * Z) :=
  match categories with
  | [] => [(cat, 0 + 1)]
  | (k, n) :: rest =>
      if str_eqb k cat then (k, n + 1) :: rest
      else (k, n) :: count_up cat rest
  end.

Definition category_breakdown (inbox : list Email) : list (pystr * Z) :=
  foldl (λ categories email,
           count_up (category_or_uncategorized (category email)) categories)
        [] inbox.

Definition inbox_overview (inbox : list Email) : pystr :=
  let overview :=
    [LF] ++ u "Total emails in inbox: " ++ of_Z (Z.of_nat (length inbox)) ++ [LF] in
  match inbox with
  | [] => overview
  | _ =>
      overview ++ u "Categories: " ++
      join (u ", ")
           ((λ '(cat, count), cat ++ u ": " ++ of_Z count) <$> category_breakdown inbox)
  end.

Definition email_context (selected_email : option Email) : pystr :=
  match selected_email with
  | None => u ""
  | Some e =>
      [LF] ++
      u "Currently Selected Email:" ++ [LF] ++
      u "ID: " ++ of_Z (id e) ++ [LF] ++
      u "From: " ++ from_addr e ++ [LF] ++
      u "Subject: " ++ subject e ++ [LF] ++
      u "Category: " ++ category_or_uncategorized (category e) ++ [LF] ++
      u "Date: " ++ timestamp e ++ [LF] ++
      [LF] ++
      u "Body:" ++ [LF] ++
      body e ++ [LF]
  end.

Definition CAPABILITIES : pystr :=
  [LF] ++
  [LF] ++
  u "Available capabilities:" ++ [LF] ++
  u "- Summarize emails" ++ [LF] ++
  u "- Extract action items and tasks" ++ [LF] ++
  u "- Draft replies" ++ [LF] ++
  u "- Categorize emails (Important, Newsletter, Spam, To-Do)" ++ [LF] ++
  u "- Filter and search emails" ++ [LF] ++
  [LF] ++
  jq "When asked about tasks or to-dos, check if emails are categorized as `To-Do`." ++ [LF] ++
  jq "When asked about urgent emails, look for `Important` category." ++ [LF] ++
  u "Be helpful, concise, and actionable." ++ [LF].

(** One line of a listing: ["- **ID {id}**: {subject} (from {from_addr})\n"] *)
Definition listing_line (email : Email) : pystr :=
  u "- **ID " ++ of_Z (id email) ++ u "**: " ++ subject email ++
  u " (from " ++ from_addr email ++ u ")" ++ [LF].

(** [for email in xs[:5]: result += ...] *)
Definition listing_lines (xs : list Email) : pystr :=
  foldl (λ result email, result ++ listing_line email) [] (take 5 xs).

(** The ["... and N more"] suffix, present when more than five match. *)
Definition more_suffix (xs : list Email) : pystr :=
  if 5 <? Z.of_nat (length xs) then
    [LF] ++ u "... and " ++ of_Z (Z.of_nat (length xs) - 5) ++ u " more"
  else [].

Definition MSG_NO_IMPORTANT : pystr := u "No emails marked as Important.".
Definition MSG_NO_TODO : pystr := u "No emails categorized as To-Do.".
Definition MSG_NO_TASKS : pystr := u "No specific tasks found in this email.".

(** [e.category == label] *)
Definition has_category (label : pystr) (e : Email) : bool :=
  bool_decide (category e = Some label).

Definition important_listing (inbox : list Email) : pystr :=
  let important_emails := List.filter (has_category (u "Important")) inbox in
  match important_emails with
  | _ :: _ =>
      u "🔴 **Important Emails (" ++ of_Z (Z.of_nat (length important_emails)) ++
      u "):**" ++ [LF; LF] ++
      listing_lines important_emails ++ more_suffix important_emails
  | [] => MSG_NO_IMPORTANT
  end.

Definition todo_listing (inbox : list Email) : pystr :=
  let todo_emails := List.filter (has_category (u "To-Do")) inbox in
  match todo_emails with
  | _ :: _ =>
      u "📋 **To-Do Emails (" ++ of_Z (Z.of_nat (length todo_emails)) ++
      u "):**" ++ [LF; LF] ++
      listing_lines todo_emails ++ more_suffix todo_emails
  | [] => MSG_NO_TODO
  end.

(** One line of the task list of the selected email. *)
Definition task_line `{RT : Runtime} (action : ActionItem) : pystr :=
  u "- " ++ format (task action) ++
  (if truthy (deadline action)
   then u " (Due: " ++ format (deadline action) ++ u ")"
   else u "").

(** The cues the router looks for in the lower-cased query. *)
Definition summarize_cue (q : pystr) : bool :=
  contains (u "summarize") q || contains (u "summary") q.
Definition task_cue (q : pystr) : bool :=
  contains (u "task") q || contains (u "to-do") q || contains (u "action") q.
Definition this_email_cue (q : pystr) : bool :=
  contains (u "this") q || contains (u "email") q.
Definition important_cue (q : pystr) : bool :=
  contains (u "urgent") q || contains (u "important") q.
Definition todo_cue (q : pystr) : bool :=
  contains (u "to-do") q || contains (u "todo") q.

(** The patterns that need no selected email, and the general query. *)
Definition inbox_patterns `{RT : Runtime} (query_lower system_prompt user_message : pystr)
    (inbox : list Email) : M pystr :=
  if important_cue query_lower then
    mret (important_listing inbox)
  else if todo_cue query_lower then
    mret (todo_listing inbox)
  else
    response ← call_llm system_prompt user_message None;
    mret response.

Definition run_agent_query `{RT : Runtime} (user_query : pystr)
    (selected_email : option Email) (prompts : gmap pystr pystr)
    (inbox : list Email) : M pystr :=
  let system_prompt :=
    dict_get prompts (u "general_agent") (u "You are an Email Productivity Agent.")
    ++ CAPABILITIES in
  let user_message :=
    inbox_overview inbox ++ [LF] ++
    [LF] ++
    email_context selected_email ++ [LF] ++
    [LF] ++
    u "User Query: " ++ user_query in
  let query_lower := str_lower user_query in
  match selected_email with
  | Some sel =>
      if summarize_cue query_lower && this_email_cue query_lower then
        summary ← summarize_email sel prompts;
        mret (u "📧 **Summary of Email #" ++ of_Z (id sel) ++ u ":**" ++ [LF; LF] ++ summary)
      else if task_cue query_lower && this_email_cue query_lower then
        actions ← extract_action_items sel prompts;
        match actions with
        | _ :: _ =>
            let tasks_text := join [LF] (task_line <$> actions) in
            mret (u "✅ **Tasks from Email #" ++ of_Z (id sel) ++ u ":**" ++ [LF; LF] ++ tasks_text)
        | [] => mret MSG_NO_TASKS
        end
      else inbox_patterns query_lower system_prompt user_message inbox
  | None => inbox_patterns query_lower system_prompt user_message inbox
  end.

End Agent.

(* ===================================================================== *)
(** * app.py: the processing pass *)
(* ===================================================================== *)

Module App.

Import Processors.

(** The part of [st.session_state] the pass reads and writes.  The [Email]
    objects live in the list [emails] and are identified by their position;
    [category_writes] is a ghost trace of the assignments
    [email.category = ...], naming the position assigned to. *)
Record session : Type := Session {
  emails : list Email;
  prompts : gmap pystr pystr;
  processed : gmap Z (pystr * list ActionItem);
  api_key_set : bool;
  category_writes : list nat
}.

(** One iteration of the loop, for the object at position [idx]. *)
Definition process_one `{RT : Runtime} (idx : nat) (s : session) : M session :=
  match emails s !! idx with
  | None => mret s
  | Some email =>
      category ← categorize_email email (prompts s);
      actions ← extract_action_items email (prompts s);
      mret (Session
              (<[idx := set_category email (Some category)]> (emails s))
              (prompts s)
              (<[id email := (category, actions)]> (processed s))
              (api_key_set s)
              (category_writes s ++ [idx]))
  end.

(** [for idx, email in enumerate(st.session_state.emails)], from position
    [idx] on, with [n] objects left. *)
Fixpoint process_from `{RT : Runtime} (idx n : nat) (s : session) : M session :=
  match n with
  | O => mret s
  | S n' =>
      s' ← process_one idx s;
      process_from (S idx) n' s'
  end.

Definition process_all_emails `{RT : Runtime} (s : session) : M session :=
  if negb (api_key_set s) then
    mret s
  else
    process_from 0 (length (emails s)) s.

End App.

(* ===================================================================== *)
(** * A reference runtime *)
(* ===================================================================== *)

(** A computable [Runtime] for the worked examples.  Its JSON decoder
    follows the grammar [json.loads] accepts, for documents without
    fractional or exponent number literals (those are refused here); its
    [str_lower] is exact on ASCII text; its service replays a script. *)
Module ReferenceRuntime.

Definition JSONDecodeError (msg : pystr) : exn := Exception (u "JSONDecodeError") msg.

Definition is_json_ws (c : N) : bool :=
  ((c =? 32) || (c =? 9) || (c =? 10) || (c =? 13))%N.

Fixpoint skip_ws (s : pystr) : pystr :=
  match s with
  | [] => []
  | c :: r => if is_json_ws c then skip_ws r else s
  end.

Definition is_digit (c : N) : bool := ((48 <=? c) && (c <=? 57))%N.

Definition hex_digit (c : N) : option N :=
  if is_digit c then Some (c - 48)%N
  else if ((97 <=? c) && (c <=? 102))%N then Some (c - 87)%N
  else if ((65 <=? c) && (c <=? 70))%N then Some (c - 55)%N
  else None.

Definition hex4 (a b c d : N) : option N :=
  a ← hex_digit a; b ← hex_digit b; c ← hex_digit c; d ← hex_digit d;
  Some (a * 4096 + b * 256 + c * 16 + d)%N.

(** The character a one-letter escape stands for. *)
Definition simple_escape (e : N) : option N :=
  if (e =? 34)%N then Some 34%N          (* quotation mark *)
  else if (e =? 92)%N then Some 92%N     (* reverse solidus *)
  else if (e =? 47)%N then Some 47%N     (* solidus *)
  else if (e =? 98)%N then Some 8%N      (* b: backspace *)
  else if (e =? 102)%N then Some 12%N    (* f: form feed *)
  else if (e =? 110)%N then Some 10%N    (* n: line feed *)
  else if (e =? 114)%N then Some 13%N    (* r: carriage return *)
  else if (e =? 116)%N then Some 9%N     (* t: tab *)
  else None.

Definition cons_fst (c : N) (p : pystr * pystr) : pystr * pystr := (c :: p.1, p.2).

(** The body of a string literal, after its opening quote: the decoded
    string and the text after the closing quote. *)
Fixpoint scan_string (s : pystr) : option (pystr * pystr) :=
  match s with
  | [] => None
  | c :: r =>
      if (c =? 34)%N then Some ([], r)
      else if (c =? 92)%N then
        match r with
        | [] => None
        | e :: r1 =>
            if (e =? 117)%N then
              match r1 with
              | h1 :: h2 :: h3 :: h4 :: r2 =>
                  match hex4 h1 h2 h3 h4 with
                  | None => None
                  | Some hi =>
                      match r2 with
                      | b :: l :: g1 :: g2 :: g3 :: g4 :: r3 =>
                          match hex4 g1 g2 g3 g4 with
                          | Some lo =>
                              if ((55296 <=? hi) && (hi <=? 56319) && (b =? 92) && (l =? 117)
                                  && (56320 <=? lo) && (lo <=? 57343))%N
                              then cons_fst (65536 + (hi - 55296) * 1024 + (lo - 56320))%N
                                     <$> scan_string r3
                              else cons_fst hi <$> scan_string r2
                          | None => cons_fst hi <$> scan_string r2
                          end
                      | _ => cons_fst hi <$> scan_string r2
                      end
                  end
              | _ => None
              end
            else
              match simple_escape e with
              | Some ch => cons_fst ch <$> scan_string r1
              | None => None
              end
        end
      else if (c <? 32)%N then None
      else cons_fst c <$> scan_string r
  end.

Fixpoint scan_digits (s : pystr) (acc : Z) : Z * pystr :=
  match s with
  | [] => (acc, [])
  | c :: r => if is_digit c then scan_digits r (acc * 10 + Z.of_N (c - 48)) else (acc, s)
  end.

(** [0|[1-9][0-9]*] *)
Definition scan_nat (s : pystr) : option (Z * pystr) :=
  match s with
  | [] => None
  | c :: r =>
      if (c =? 48)%N then Some (0, r)
      else if is_digit c then Some (scan_digits s 0)
      else None
  end.

(** Does a fraction or an exponent follow? *)
Definition float_tail (s : pystr) : bool :=
  match s with
  | c :: d :: r =>
      ((c =? 46)%N && is_digit d)
      || (((c =? 101) || (c =? 69))%N
          && (is_digit d
              || (((d =? 43) || (d =? 45))%N && match r with d2 :: _ => is_digit d2 | [] => false end)))
  | _ => false
  end.

Definition scan_number (s : pystr) : option (json * pystr) :=
  let '(neg, digits) :=
    match s with
    | c :: r => if (c =? 45)%N then (true, r) else (false, s)
    | [] => (false, s)
    end in
  '(n, rest) ← scan_nat digits;
  if float_tail rest then None
  else Some (JInt (if neg then - n else n), rest).

Fixpoint parse_value (fuel : nat) (s : pystr) : option (json * pystr) :=
  match fuel with
  | O => None
  | S fuel =>
      match s with
      | [] => None
      | c :: r =>
          if (c =? 34)%N then
            '(str, rest) ← scan_string r; Some (JStr str, rest)
          else if (c =? 123)%N then
            match skip_ws r with
            | [] => None
            | c' :: rest => if (c' =? 125)%N then Some (JObj ∅, rest)
                            else parse_members fuel (c' :: rest) ∅
            end
          else if (c =? 91)%N then
            match skip_ws r with
            | [] => None
            | c' :: rest => if (c' =? 93)%N then Some (JArr [], rest)
                            else parse_elements fuel (c' :: rest) []
            end
          else if starts_with (u "null") s then Some (JNull, drop 4 s)
          else if starts_with (u "true") s then Some (JBool true, drop 4 s)
          else if starts_with (u "false") s then Some (JBool false, drop 5 s)
          else if starts_with (u "NaN") s then Some (JFloat S754_nan, drop 3 s)
          else if starts_with (u "Infinity") s then Some (JFloat (S754_infinity false), drop 8 s)
          else if starts_with (u "-Infinity") s then Some (JFloat (S754_infinity true), drop 9 s)
          else scan_number s
      end
  end
with parse_elements (fuel : nat) (s : pystr) (acc : list json) : option (json * pystr) :=
  match fuel with
  | O => None
  | S fuel =>
      '(v, rest) ← parse_value fuel s;
      match skip_ws rest with
      | [] => None
      | c :: r =>
          if (c =? 44)%N then parse_elements fuel (skip_ws r) (acc ++ [v])
          else if (c =? 93)%N then Some (JArr (acc ++ [v]), r)
          else None
      end
  end
with parse_members (fuel : nat) (s : pystr) (acc : gmap pystr json) : option (json * pystr) :=
  match fuel with
  | O => None
  | S fuel =>
      match s with
      | [] => None
      | q :: r =>
          if negb (q =? 34)%N then None
          else
            '(key, rest) ← scan_string r;
            match skip_ws rest with
            | [] => None
            | c :: r1 =>
                if negb (c =? 58)%N then None
                else
                  '(v, rest1) ← parse_value fuel (skip_ws r1);
                  match skip_ws rest1 with
                  | [] => None
                  | c' :: r2 =>
                      if (c' =? 44)%N then parse_members fuel (skip_ws r2) (<[key := v]> acc)
                      else if (c' =? 125)%N then Some (JObj (<[key := v]> acc), r2)
                      else None
                  end
            end
      end
  end.

Definition loads (s : pystr) : outcome json :=
  match parse_value (2 * length s + 2) (skip_ws s) with
  | None => Raise (JSONDecodeError (u "Expecting value"))
  | Some (v, rest) =>
      match skip_ws rest with
      | [] => Ok v
      | _ => Raise (JSONDecodeError (u "Extra data"))
      end
  end.

(** [str(v)] for [None], booleans and integers; other values are not
    rendered by this instance. *)
Definition repr (v : json) : pystr :=
  match v with
  | JNull => u "None"
  | JBool true => u "True"
  | JBool false => u "False"
  | JInt z => of_Z z
  | JStr s => s
  | _ => u "..."
  end.

(** The service replays [script]: the n-th request gets the n-th entry, and a
    connection error once the script is used up. *)
Definition replay (script : list (outcome chat_completion))
    (history : list request) (r : request) : outcome chat_completion :=
  default (Raise (Exception (u "APIConnectionError") (u "Connection error.")))
          (script !! length history).

Definition scripted (script : list (outcome chat_completion)) : Runtime :=
  {| str_lower := ascii_lower;
     json_loads := loads;
     py_repr := repr;
     openai_client := λ _, Ok ();
     openai_create := replay script |}.

(** The service answers every request with the one completion [text]. *)
Definition answering (text : pystr) : Runtime :=
  {| str_lower := ascii_lower;
     json_loads := loads;
     py_repr := repr;
     openai_client := λ _, Ok ();
     openai_create := λ _ _, Ok [Some text] |}.

(** A world with a credential configured, and one without. *)
Definition world_with_key : world :=
  World {[ u "OPENAI_API_KEY" := u "sk-test" ]} [] (u "2026-01-01T00:00:00").

Definition world_without_key : world :=
  World ∅ [] (u "2026-01-01T00:00:00").

(** The email of the worked examples. *)
Definition sample_email : Email :=
  mkEmail 7 (u "client@example.com") (u "user@company.com") (u "Quarterly review")
          (u "Please reply by Friday.") (u "2026-01-01T09:00:00") (u "INBOX") None.

(** The n-th email of a made-up inbox, with the given category. *)
Definition numbered (n : Z) (cat : option pystr) : Email :=
  mkEmail n (u "sender" ++ of_Z n ++ u "@example.com") (u "user@company.com")
          (u "Subject " ++ of_Z n) (u "Body") (u "2026-01-01T09:00:00") (u "INBOX") cat.

(** Nine emails: seven labelled Important (ids 1-4, 6, 8, 9), one
    Newsletter and one not yet categorized. *)
Definition inbox_with_seven_important : list Email :=
  [ numbered 1 (Some (u "Important")); numbered 2 (Some (u "Important"));
    numbered 3 (Some (u "Important")); numbered 4 (Some (u "Important"));
    numbered 5 (Some (u "Newsletter")); numbered 6 (Some (u "Important"));
    numbered 7 None; numbered 8 (Some (u "Important"));
    numbered 9 (Some (u "Important")) ].

End ReferenceRuntime.

(* ===================================================================== *)
(** * The specification's own formulations *)
(* ===================================================================== *)

(** Definitions that follow the words of the specification; the theorems
    below compare them with the code. *)
Module Spec.

Import Processors Agent InboxLoader.

(** "takes the first line of the response, trims whitespace; validates
    membership in the fixed label set; on non-membership defaults to
    Important". *)
Definition label_of_response (response : pystr) : pystr :=
  let first_line := strip (line response) in
  if bool_decide (first_line ∈ valid_categories) then first_line
  else u "Important".

(** "on any parse failure (malformed JSON, wrong shape, exception of any
    kind)": decoding the text raises, or yields something else than an
    array. *)
Definition parse_fails `{RT : Runtime} (response : pystr) : bool :=
  match json_loads (json_text response) with
  | Raise _ => true
  | Ok (JArr _) => false
  | Ok _ => true
  end.

(** "one ActionItem per object element (non-object elements skipped), with
    task taken from the task field, deadline from the optional deadline
    field, and email_id equal to the source email's id". *)
Definition action_item_of (email : Email) (element : json) : option ActionItem :=
  match element with
  | JObj d =>
      Some (mkActionItem (default (JStr (u "")) (d !! u "task"))
                         (default JNull (d !! u "deadline"))
                         (Some (id email)))
  | _ => None
  end.

Definition action_items_of (email : Email) (elements : list json) : list ActionItem :=
  omap (action_item_of email) elements.

(** "render up to 5 as a bulleted identifier+subject+sender list with a
    ...and N more suffix if truncated; else return a fixed none-found
    message", over the records whose category is Important. *)
Definition important_answer (inbox : list Email) : pystr :=
  let important := List.filter (has_category (u "Important")) inbox in
  let n := Z.of_nat (length important) in
  if bool_decide (important = []) then MSG_NO_IMPORTANT
  else
    u "🔴 **Important Emails (" ++ of_Z n ++ u "):**" ++ [LF; LF] ++
    mjoin (listing_line <$> take 5 important) ++
    (if bool_decide (5 < n) then [LF] ++ u "... and " ++ of_Z (n - 5) ++ u " more" else []).

(** The intents that take precedence over the urgency intent: with an email
    selected, a summarize or task cue together with a this/email cue. *)
Definition earlier_intent (selected_email : option Email) (query_lower : pystr) : bool :=
  match selected_email with
  | Some _ =>
      (summarize_cue query_lower && this_email_cue query_lower)
      || (task_cue query_lower && this_email_cue query_lower)
  | None => false
  end.

(** The record a source element loads as, if it loads. *)
Definition record_of (el : element) : option Email :=
  match el with
  | Object it =>
      Some (mkEmail
              (default 0 (item_id it))
              (default (u "unknown@example.com") (item_from it))
              (default (u "user@company.com") (item_to it))
              (default (u "No Subject") (item_subject it))
              (default (u "") (item_body it))
              (default (u "") (item_timestamp it))
              (default (u "INBOX") (item_raw_folder it))
              None)
  | NotObject => None
  end.

End Spec.

(* ===================================================================== *)
(** * backend/models.py: PromptConfig *)
(* ===================================================================== *)

Module PromptConfig.

Record PromptConfig : Type := mkPromptConfig {
  categorization : pystr;
  action_item : pystr;
  auto_reply : pystr;
  summary : pystr;
  general_agent : pystr
}.

Definition to_dict (self : PromptConfig) : gmap pystr pystr :=
  list_to_map
    [ (u "categorization", categorization self);
      (u "action_item", action_item self);
      (u "auto_reply", auto_reply self);
      (u "summary", summary self);
      (u "general_agent", general_agent self) ].

Definition from_dict (data : gmap pystr pystr) : PromptConfig :=
  mkPromptConfig
    (dict_get data (u "categorization") (u ""))
    (dict_get data (u "action_item") (u ""))
    (dict_get data (u "auto_reply") (u ""))
    (dict_get data (u "summary") (u ""))
    (dict_get data (u "general_agent") (u "")).

End PromptConfig.

(* ===================================================================== *)
(** * app.py: the handlers behind the tabs *)
(* ===================================================================== *)

(** The state transitions of the presentation layer; what the handlers draw
    on the page ([st.markdown], [st.success], ...) is left out. *)
Module Presentation.

Import Processors Agent InboxLoader.

(** [email.body[:200] + "..." if len(email.body) > 200 else email.body] *)
Definition body_preview (body : pystr) : pystr :=
  if 200 <? Z.of_nat (length body) then slice body 0 200 ++ u "..."
  else body.

(** One entry of [st.session_state.chat_history]. *)
Record message : Type := Message { role : pystr; content : pystr }.

(** The part of [st.session_state] the chat tab reads and writes. *)
Record chat_state : Type := ChatState {
  chat_emails : list Email;
  chat_prompts : gmap pystr pystr;
  selected_email_id : option Z;
  chat_history : list message;
  chat_api_key_set : bool
}.

Definition MSG_CHAT_NO_KEY : pystr :=
  u "⚠️ API key not configured. Please set OPENAI_API_KEY.".

(** Truthiness of an [Optional[int]]: [None] and [0] are falsy. *)
Definition id_truthy (o : option Z) : bool :=
  match o with Some z => negb (z =? 0) | None => false end.

(** The email handed to the agent: looked up only [if
    st.session_state.selected_email_id:]. *)
Definition chat_selected_email (s : chat_state) : option Email :=
  if id_truthy (selected_email_id s) then
    get_email_by_id (chat_emails s) (default 0 (selected_email_id s))
  else None.

(** The agent response of one chat turn. *)
Definition chat_response `{RT : Runtime} (user_input : pystr) (s : chat_state) : M pystr :=
  if negb (chat_api_key_set s) then
    mret MSG_CHAT_NO_KEY
  else
    let selected_email := chat_selected_email s in
    run_agent_query user_input selected_email (chat_prompts s) (chat_emails s).

(** [if user_input:] in [render_agent_chat_tab]: the user message is
    appended to the history, then the response. *)
Definition handle_chat_input `{RT : Runtime} (user_input : option pystr)
    (s : chat_state) : M chat_state :=
  if opt_truthy user_input then
    let user_input := default [] user_input in
    let history := chat_history s ++ [Message (u "user") user_input] in
    response ← chat_response user_input s;
    mret (ChatState (chat_emails s) (chat_prompts s) (selected_email_id s)
                    (history ++ [Message (u "assistant") response])
                    (chat_api_key_set s))
  else mret s.

(** The part of [st.session_state] the draft form reads and writes. *)
Record draft_state : Type := DraftState {
  drafts : gmap Z DraftEmail;
  show_draft_form : bool;
  draft_api_key_set : bool;
  draft_prompts : gmap pystr pystr
}.

(** The Generate Draft button of [render_draft_form], with the tone chosen
    in the select box. *)
Definition generate_draft `{RT : Runtime} (email : Email) (tone : pystr)
    (s : draft_state) : M draft_state :=
  if negb (draft_api_key_set s) then
    mret s
  else
    draft ← draft_reply email (draft_prompts s) (Some tone);
    mret (DraftState (<[id email := draft]> (drafts s)) false
                     (draft_api_key_set s) (draft_prompts s)).

End Presentation.

(* ===================================================================== *)
(** * Notions used to state properties *)
(* ===================================================================== *)

Module Notions.

Import Agent.

(** From [w] to [w'] the environment and the clock are untouched and at
    most [n] requests were sent. *)
Definition sends_at_most (n : nat) (w w' : world) : Prop :=
  environ w' = environ w
  ∧ clock w' = clock w
  ∧ ∃ reqs, sent w' = sent w ++ reqs ∧ (length reqs ≤ n)%nat.

(** How many emails of the inbox the overview files under [cat]. *)
Definition emails_in_category (cat : pystr) (inbox : list Email) : nat :=
  length (List.filter
            (λ e, bool_decide (category_or_uncategorized (category e) = cat))
            inbox).

(** [d.get(k)] on a dict kept as a list of items. *)
Fixpoint items_get (k : pystr) (d : list (pystr * Z)) : option Z :=
  match d with
  | [] => None
  | (k', n) :: rest => if str_eqb k' k then Some n else items_get k rest
  end.

End Notions.

(* ===================================================================== *)
(** * Properties of the string operations *)
(* ===================================================================== *)

Section StringFacts.

Implicit Types s r x ws : pystr.

Lemma lstrip_all_space s : all_space s = true → lstrip s = [].
Proof.
  induction s as [|c s IH]; simpl; [done|].
  intros [Hc Hs]%andb_true_iff. rewrite Hc. auto.
Qed.

Lemma rstrip_all_space s : all_space s = true → rstrip s = [].
Proof.
  induction s as [|c s IH]; simpl; [done|].
  intros [Hc Hs]%andb_true_iff. rewrite (IH Hs), Hc. done.
Qed.

Lemma rstrip_app_space x ws : all_space ws = true → rstrip (x ++ ws) = rstrip x.
Proof.
  intros Hws. induction x as [|c x IH]; simpl.
  - by apply rstrip_all_space.
  - by rewrite IH.
Qed.

(** [rstrip] removes a suffix made of whitespace only. *)
Lemma rstrip_suffix s : ∃ ws, s = rstrip s ++ ws ∧ all_space ws = true.
Proof.
  induction s as [|c s (ws & Hs & Hws)]; simpl.
  - by exists [].
  - destruct (rstrip s) as [|y ys] eqn:E.
    + simpl in Hs. subst ws. destruct (is_space c) eqn:Hc.
      * exists (c :: s). simpl. by rewrite Hc, Hws.
      * exists s. done.
    + exists ws. split; [|done]. simpl. f_equal. exact Hs.
Qed.

Lemma lstrip_length s : (length (lstrip s) ≤ length s)%nat.
Proof.
  induction s as [|c s IH]; simpl; [lia|].
  destruct (is_space c); simpl; lia.
Qed.

(** A string that starts with a character that is not whitespace is left
    alone by [lstrip], whatever follows. *)
Lemma lstrip_app_fixed x s : x ≠ [] → lstrip x = x → lstrip (x ++ s) = x ++ s.
Proof.
  destruct x as [|c x]; [done|]. intros _. simpl.
  destruct (is_space c); [|done].
  intros Heq. pose proof (lstrip_length x) as Hlen.
  rewrite Heq in Hlen. simpl in Hlen. lia.
Qed.

Lemma lstrip_head s :
  match lstrip s with [] => True | c :: _ => is_space c = false end.
Proof.
  induction s as [|c s IH]; simpl; [done|].
  destruct (is_space c) eqn:Hc; [done|]. by rewrite Hc.
Qed.

(** [strip] leaves no leading whitespace. *)
Lemma lstrip_strip s : lstrip (strip s) = strip s.
Proof.
  unfold strip. pose proof (lstrip_head s) as Hh.
  destruct (lstrip s) as [|c t]; [done|]. simpl.
  destruct (rstrip t); rewrite ?Hh; simpl; rewrite Hh; done.
Qed.

Lemma strip_app_space x ws : all_space ws = true → strip (x ++ ws) = strip x.
Proof.
  intros Hws. unfold strip. induction x as [|c x IH].
  - simpl. by rewrite (lstrip_all_space _ Hws).
  - change ((c :: x) ++ ws) with (c :: (x ++ ws)).
    cbn [lstrip]. destruct (is_space c); [done|].
    apply (rstrip_app_space (c :: x) ws Hws).
Qed.

Lemma first_split s : first (split LF s) = line s.
Proof.
  induction s as [|c s IH]; simpl; [done|].
  destruct (c =? LF)%N; [done|].
  unfold first in IH. destruct (split LF s); simpl in *; congruence.
Qed.

Lemma line_all_space ws : all_space ws = true → all_space (line ws) = true.
Proof.
  induction ws as [|c ws IH]; simpl; [done|].
  intros [Hc Hws]%andb_true_iff. destruct (c =? LF)%N; simpl; [done|].
  by rewrite Hc, IH.
Qed.

Lemma line_app_space x ws :
  all_space ws = true → ∃ ws', line (x ++ ws) = line x ++ ws' ∧ all_space ws' = true.
Proof.
  intros Hws. induction x as [|c x (ws' & IH & Hws')]; simpl.
  - exists (line ws). split; [done|]. by apply line_all_space.
  - destruct (c =? LF)%N.
    + by exists [].
    + exists ws'. by rewrite IH.
Qed.

(** Trailing whitespace of the whole text does not change its stripped
    first line. *)
Lemma strip_line_rstrip s : strip (line (rstrip s)) = strip (line s).
Proof.
  destruct (rstrip_suffix s) as (ws & Hs & Hws).
  destruct (line_app_space (rstrip s) ws Hws) as (ws' & Hl & Hws').
  rewrite Hs at 2. rewrite Hl. by rewrite strip_app_space.
Qed.

(** On a text without leading whitespace, stripping the text first does not
    change its stripped first line. *)
Lemma strip_first_line s :
  lstrip s = s →
  strip (first (split LF (strip s))) = strip (first (split LF s)).
Proof.
  intros Hs. rewrite !first_split. unfold strip at 2. rewrite Hs.
  apply strip_line_rstrip.
Qed.

End StringFacts.

(* ===================================================================== *)
(** * backend/llm_client.py: the Gateway never raises *)
(* ===================================================================== *)

Section LlmClientFacts.

Context `{RT : Runtime}.
Import LlmClient.

Lemma call_llm_total sp uc model w : ∃ s w', call_llm sp uc model w = (Ok s, w').
Proof.
  unfold call_llm, try_except.
  match goal with |- context [match ?b with _ => _ end] => destruct b as [[s|e] w'] end.
  - eauto.
  - unfold mret, M_ret. eauto.
Qed.

Lemma call_llm_without_key sp uc model w :
  opt_truthy (environ w !! u "OPENAI_API_KEY") = false →
  call_llm sp uc model w = (Ok MSG_NO_API_KEY, w).
Proof.
  intros Hkey. unfold call_llm, try_except, mbind, M_bind, getenv.
  rewrite Hkey. reflexivity.
Qed.

Lemma first_choice_stripped_ok response s :
  first_choice_stripped response = Ok s → ∃ content, s = strip content.
Proof.
  destruct response as [|[content|] rest]; simpl; intros [=]. eauto.
Qed.

(** What [call_llm] can return: the configuration message, a stripped
    completion, or the description of an exception. *)
Lemma call_llm_cases sp uc model w s w' :
  call_llm sp uc model w = (Ok s, w') →
  s = MSG_NO_API_KEY ∨ (∃ content, s = strip content) ∨ (∃ e, s = describe_error e).
Proof.
  unfold call_llm, try_except, mbind, M_bind, mret, M_ret, getenv, getenv_default,
    lift, chat_completions_create.
  destruct (negb (opt_truthy (environ w !! u "OPENAI_API_KEY"))).
  { intros [= <- <-]. by left. }
  destruct (openai_client _) as [[]|e0]; [|intros [= <- <-]; eauto].
  destruct (opt_truthy model).
  - destruct (openai_create _ _) as [response|e1]; [|intros [= <- <-]; eauto].
    destruct (first_choice_stripped response) as [s0|e2] eqn:E; intros [= <- <-]; [|eauto].
    right; left. by eapply first_choice_stripped_ok.
  - destruct (openai_create _ _) as [response|e1]; [|intros [= <- <-]; eauto].
    destruct (first_choice_stripped response) as [s0|e2] eqn:E; intros [= <- <-]; [|eauto].
    right; left. by eapply first_choice_stripped_ok.
Qed.

Lemma describe_error_lstrip e : lstrip (describe_error e) = describe_error e.
Proof.
  unfold describe_error.
  repeat match goal with |- context [if ?b then _ else _] => destruct b end;
    first [ by vm_compute
          | apply lstrip_app_fixed; by vm_compute ].
Qed.

(** A Gateway response never starts with whitespace. *)
Lemma call_llm_lstrip sp uc model w s w' :
  call_llm sp uc model w = (Ok s, w') → lstrip s = s.
Proof.
  intros [->|[[content ->]|[e ->]]]%call_llm_cases.
  - by vm_compute.
  - apply lstrip_strip.
  - apply describe_error_lstrip.
Qed.

(** C7. [call_llm] never raises: for every system prompt, user content,
    model override and world it returns a string.  When no credential is
    configured ([OPENAI_API_KEY] unset or empty) it returns the fixed
    configuration-error message and leaves the world as it was: no request
    is sent. *)
Theorem call_llm_never_raises sp uc model w :
  (∃ s w', call_llm sp uc model w = (Ok s, w')) ∧
  (opt_truthy (environ w !! u "OPENAI_API_KEY") = false →
   call_llm sp uc model w = (Ok MSG_NO_API_KEY, w)).
Proof.
  split; [apply call_llm_total | apply call_llm_without_key].
Qed.

End LlmClientFacts.

(** C7 at a world without credential: the message comes back and the list
    of requests sent stays empty. *)
Lemma call_llm_never_raises_witness :
  LlmClient.call_llm (RT := ReferenceRuntime.answering (u "ok"))
      (u "Categorize this email.") (u "Subject: Hi") None
      ReferenceRuntime.world_without_key
  = (Ok LlmClient.MSG_NO_API_KEY, ReferenceRuntime.world_without_key).
Proof.
  apply (proj2 (call_llm_never_raises (RT := ReferenceRuntime.answering (u "ok"))
                  (u "Categorize this email.") (u "Subject: Hi") None
                  ReferenceRuntime.world_without_key)).
  vm_compute. reflexivity.
Defined.

(* ===================================================================== *)
(** * backend/processors.py *)
(* ===================================================================== *)

Section FindFacts.

Implicit Types s pre post mid : pystr.

Lemma find_app_here c pre s : c ∉ pre → find c (pre ++ c :: s) = Z.of_nat (length pre).
Proof.
  induction pre as [|a pre IH]; simpl; intros Hnot.
  - by rewrite N.eqb_refl.
  - apply not_elem_of_cons in Hnot as [Hne Hnot].
    destruct (N.eqb_spec a c) as [->|_]; [done|].
    rewrite (IH Hnot). destruct (Z.ltb_spec (Z.of_nat (length pre)) 0); lia.
Qed.

Lemma rfind_absent c s : c ∉ s → rfind c s = -1.
Proof.
  induction s as [|a s IH]; simpl; [done|]. intros Hnot.
  apply not_elem_of_cons in Hnot as [Hne Hnot]. rewrite (IH Hnot). simpl.
  destruct (N.eqb_spec a c) as [->|_]; done.
Qed.

Lemma rfind_app_here c s post : c ∉ post → rfind c (s ++ c :: post) = Z.of_nat (length s).
Proof.
  intros Hnot. induction s as [|a s IH]; simpl.
  - rewrite (rfind_absent _ _ Hnot). simpl. by rewrite N.eqb_refl.
  - rewrite IH. destruct (Z.leb_spec 0 (Z.of_nat (length s))); lia.
Qed.

(** An array text between prose without brackets of its own is what
    [json_text] isolates. *)
Lemma json_text_bracketed pre mid post :
  LBRACKET ∉ pre → RBRACKET ∉ post →
  Processors.json_text (pre ++ [LBRACKET] ++ mid ++ [RBRACKET] ++ post)
  = [LBRACKET] ++ mid ++ [RBRACKET].
Proof.
  intros Hpre Hpost. unfold Processors.json_text.
  assert (find LBRACKET (pre ++ [LBRACKET] ++ mid ++ [RBRACKET] ++ post)
          = Z.of_nat (length pre)) as ->.
  { apply (find_app_here LBRACKET pre (mid ++ [RBRACKET] ++ post) Hpre). }
  assert (rfind RBRACKET (pre ++ [LBRACKET] ++ mid ++ [RBRACKET] ++ post)
          = Z.of_nat (length pre + S (length mid))) as ->.
  { replace (pre ++ [LBRACKET] ++ mid ++ [RBRACKET] ++ post)
      with ((pre ++ LBRACKET :: mid) ++ RBRACKET :: post)
      by (by rewrite <- app_assoc).
    rewrite (rfind_app_here _ _ _ Hpost). by rewrite length_app. }
  case_match eqn:Hcond.
  2: { apply andb_false_iff in Hcond as [?%Z.leb_gt|?%Z.ltb_ge]; lia. }
  unfold slice. rewrite Nat2Z.id.
  replace (Z.to_nat (Z.of_nat (length pre + S (length mid)) + 1) - length pre)%nat
    with (length ([LBRACKET] ++ mid ++ [RBRACKET])).
  2: { rewrite !length_app. simpl. lia. }
  rewrite drop_app_length.
  replace ([LBRACKET] ++ mid ++ [RBRACKET] ++ post)
    with (([LBRACKET] ++ mid ++ [RBRACKET]) ++ post)
    by (by rewrite <- !app_assoc).
  by rewrite take_app_length.
Qed.

End FindFacts.

Section ProcessorsFacts.

Context `{RT : Runtime}.
Import LlmClient Processors Spec.

Lemma label_of_response_valid response : label_of_response response ∈ valid_categories.
Proof.
  unfold label_of_response. case_bool_decide; [done|]. constructor.
Qed.

(** [categorize_email], once the Gateway has answered. *)
Lemma categorize_email_unfold email prompts w response w' :
  call_llm (dict_get prompts (u "categorization") (u "Categorize this email."))
           (email_text email) None w = (Ok response, w') →
  categorize_email email prompts w = (Ok (label_of_response response), w').
Proof.
  intros Hcall. unfold categorize_email, mbind, M_bind. rewrite Hcall.
  unfold mret, M_ret. do 2 f_equal.
  rewrite (strip_first_line response) by (by eapply call_llm_lstrip).
  rewrite first_split. unfold label_of_response.
  case_bool_decide; done.
Qed.

Lemma categorize_email_total email prompts w :
  ∃ c w', categorize_email email prompts w = (Ok c, w') ∧ c ∈ valid_categories.
Proof.
  destruct (call_llm_total
              (dict_get prompts (u "categorization") (u "Categorize this email."))
              (email_text email) None w) as (response & w' & Hcall).
  exists (label_of_response response), w'.
  split; [by apply categorize_email_unfold | apply label_of_response_valid].
Qed.

(** C2. For every email, template set and world, [categorize_email] returns
    a member of the four labels: the Gateway returns some response, and the
    result is the stripped first line of that response when it is one of
    the labels, and Important otherwise. *)
Theorem categorize_email_label email prompts w :
  ∃ response w',
    call_llm (dict_get prompts (u "categorization") (u "Categorize this email."))
             (email_text email) None w = (Ok response, w')
    ∧ categorize_email email prompts w = (Ok (label_of_response response), w')
    ∧ label_of_response response ∈ valid_categories.
Proof.
  destruct (call_llm_total
              (dict_get prompts (u "categorization") (u "Categorize this email."))
              (email_text email) None w) as (response & w' & Hcall).
  exists response, w'. split; [done|].
  split; [by apply categorize_email_unfold | apply label_of_response_valid].
Qed.

Lemma call_llm_with_json_total sp uc model w :
  ∃ s w', call_llm_with_json sp uc model w = (Ok s, w').
Proof. apply call_llm_total. Qed.

(** The conversion loop appends one item per object element. *)
Lemma convert_spec email tasks acc :
  convert email tasks acc = acc ++ action_items_of email tasks.
Proof.
  revert acc. induction tasks as [|v tasks IH]; intros acc; simpl.
  - by rewrite app_nil_r.
  - destruct v; simpl; rewrite ?IH; try done.
    by rewrite <- app_assoc.
Qed.

Lemma action_items_of_strings email (f : N → json) (l : list N) :
  (∀ c, is_dict (f c) = false) → action_items_of email (f <$> l) = [].
Proof.
  intros Hf. induction l as [|c l IH]; simpl; [done|].
  unfold action_items_of in *. simpl. specialize (Hf c).
  destruct (f c); simpl in *; done.
Qed.

Lemma action_items_of_keys email (l : list pystr) :
  action_items_of email (JStr <$> l) = [].
Proof. induction l as [|k l IH]; simpl; done. Qed.

(** [extract_action_items], once the Gateway has answered. *)
Lemma extract_action_items_unfold email prompts w response w' :
  call_llm_with_json (dict_get prompts (u "action_item") (u "Extract tasks from the email."))
                     (email_text email) None w = (Ok response, w') →
  extract_action_items email prompts w
  = (Ok (match parse_action_items email response with
         | Ok items => items
         | Raise _ => []
         end), w').
Proof.
  intros Hcall. unfold extract_action_items, mbind, M_bind. rewrite Hcall.
  unfold try_except, lift, mret, M_ret.
  destruct (parse_action_items email response); done.
Qed.

Lemma parse_action_items_array email response elements :
  json_loads (json_text response) = Ok (JArr elements) →
  parse_action_items email response = Ok (action_items_of email elements).
Proof.
  intros Hloads. unfold parse_action_items, mbind, outcome_bind. rewrite Hloads.
  simpl. unfold mret, outcome_ret. by rewrite convert_spec.
Qed.

Lemma parse_action_items_failure email response :
  parse_fails response = true →
  match parse_action_items email response with
  | Ok items => items = []
  | Raise _ => True
  end.
Proof.
  unfold parse_fails, parse_action_items, mbind, outcome_bind.
  destruct (json_loads (json_text response)) as [v|e]; [|done].
  destruct v; simpl; try done; intros _; unfold mret, outcome_ret;
    rewrite convert_spec; simpl.
  - by apply action_items_of_strings.
  - apply action_items_of_keys.
Qed.

Lemma extract_action_items_total email prompts w :
  ∃ items w', extract_action_items email prompts w = (Ok items, w').
Proof.
  destruct (call_llm_with_json_total
              (dict_get prompts (u "action_item") (u "Extract tasks from the email."))
              (email_text email) None w) as (response & w' & Hcall).
  rewrite (extract_action_items_unfold _ _ _ _ _ Hcall). eauto.
Qed.

(** C3. [extract_action_items] never raises: it always returns a list.
    When parsing the Gateway response fails (the decoder raises, or the
    decoded value is not an array) the list is empty. *)
Theorem extract_action_items_parse_failure email prompts w :
  (∃ items w', extract_action_items email prompts w = (Ok items, w')) ∧
  (∀ response w',
     call_llm_with_json (dict_get prompts (u "action_item") (u "Extract tasks from the email."))
                        (email_text email) None w = (Ok response, w') →
     parse_fails response = true →
     extract_action_items email prompts w = (Ok [], w')).
Proof.
  split.
  - apply extract_action_items_total.
  - intros response w' Hcall Hfail.
    rewrite (extract_action_items_unfold _ _ _ _ _ Hcall).
    pose proof (parse_action_items_failure email response Hfail) as Hp.
    destruct (parse_action_items email response); by subst.
Qed.

(** C4, as amended.  When the Gateway response is a JSON array wrapped in
    prose that has no opening bracket before the array and no closing
    bracket after it (the prose may be empty: the response is exactly the
    array), the array is what is decoded, and [extract_action_items] returns
    one [ActionItem] per object element in order, non-object elements
    skipped, with [task] and [deadline] read from the object and [email_id]
    the id of the email. *)
Theorem extract_action_items_bracketed_array email prompts w response w' pre mid post elements :
  call_llm_with_json (dict_get prompts (u "action_item") (u "Extract tasks from the email."))
                     (email_text email) None w = (Ok response, w') →
  response = pre ++ [LBRACKET] ++ mid ++ [RBRACKET] ++ post →
  LBRACKET ∉ pre →
  RBRACKET ∉ post →
  json_loads ([LBRACKET] ++ mid ++ [RBRACKET]) = Ok (JArr elements) →
  extract_action_items email prompts w = (Ok (action_items_of email elements), w').
Proof.
  intros Hcall -> Hpre Hpost Hloads.
  rewrite (extract_action_items_unfold _ _ _ _ _ Hcall).
  rewrite (parse_action_items_array email _ elements); [done|].
  by rewrite json_text_bracketed.
Qed.

(** C5. For every email, template set and tone, [draft_reply] returns a
    draft whose subject is Re: followed by the subject of the email, whose
    body is the Gateway response as returned, and whose metadata hold the
    sender, subject and category of the email at the time of the call. *)
Theorem draft_reply_fields email prompts user_tone w :
  ∃ response w' draft,
    call_llm (reply_system_prompt prompts user_tone) (reply_user_content email) None w
      = (Ok response, w')
    ∧ draft_reply email prompts user_tone w = (Ok draft, w')
    ∧ draft_subject draft = u "Re: " ++ subject email
    ∧ draft_body draft = response
    ∧ original_email_id draft = id email
    ∧ suggested_tone draft = user_tone
    ∧ metadata draft !! u "original_from" = Some (Some (from_addr email))
    ∧ metadata draft !! u "original_subject" = Some (Some (subject email))
    ∧ metadata draft !! u "category" = Some (category email).
Proof.
  destruct (call_llm_total (reply_system_prompt prompts user_tone)
              (reply_user_content email) None w) as (response & w' & Hcall).
  eexists response, w', _. split; [done|]. split.
  { unfold draft_reply, mbind, M_bind. rewrite Hcall.
    unfold now_isoformat, mret, M_ret. reflexivity. }
  simpl. repeat split.
Qed.

End ProcessorsFacts.

Section ProcessorsExamples.

Import LlmClient Processors Spec ReferenceRuntime.

(** C3 on the reply "sorry, I can't help": no bracket, the whole text goes
    to the decoder, which refuses it; the result is the empty list. *)
Lemma extract_action_items_parse_failure_witness :
  let R := answering (u "sorry, I can't help") in
  parse_fails (RT := R) (u "sorry, I can't help") = true
  ∧ fst (extract_action_items (RT := R) sample_email ∅ world_with_key) = Ok [].
Proof.
  intros R. split; [by vm_compute|].
  pose (w1 := snd (call_llm_with_json (RT := R)
                     (dict_get ∅ (u "action_item") (u "Extract tasks from the email."))
                     (email_text sample_email) None world_with_key)).
  rewrite (proj2 (extract_action_items_parse_failure (RT := R) sample_email ∅ world_with_key)
             (u "sorry, I can't help") w1).
  - reflexivity.
  - vm_compute. reflexivity.
  - vm_compute. reflexivity.
Defined.

(** C4 on an array wrapped in prose: one item, without deadline. *)
Lemma extract_action_items_bracketed_array_witness :
  let response :=
    u "Here are the tasks:" ++ [LF] ++ jq "[{`task`:`Book room`}]" ++ [LF] ++ u "Let me know." in
  fst (extract_action_items (RT := answering response) sample_email ∅ world_with_key)
  = Ok [mkActionItem (JStr (u "Book room")) JNull (Some 7)].
Proof.
  intros response.
  pose (R := answering response).
  pose (w1 := snd (call_llm_with_json (RT := R)
                     (dict_get ∅ (u "action_item") (u "Extract tasks from the email."))
                     (email_text sample_email) None world_with_key)).
  rewrite (extract_action_items_bracketed_array (RT := R) sample_email ∅ world_with_key
             response w1
             (u "Here are the tasks:" ++ [LF]) (jq "{`task`:`Book room`}")
             ([LF] ++ u "Let me know.")
             [JObj {[ u "task" := JStr (u "Book room") ]}]).
  - vm_compute. reflexivity.
  - vm_compute. reflexivity.
  - vm_compute. reflexivity.
  - apply (bool_decide_unpack _). vm_compute. exact I.
  - apply (bool_decide_unpack _). vm_compute. exact I.
  - vm_compute. reflexivity.
Defined.

(** The response that is exactly the array of the specification's example:
    one item with its task, its deadline and the id of the email. *)
Example extract_action_items_exact_array :
  let response := jq "[{`task`:`Reply to client`,`deadline`:`Friday`}]" in
  fst (extract_action_items (RT := answering response) sample_email ∅ world_with_key)
  = Ok [mkActionItem (JStr (u "Reply to client")) (JStr (u "Friday")) (Some 7)].
Proof. vm_compute. reflexivity. Qed.

(** C4 as stated fails when the prose has a bracket of its own: the
    response below contains a well-formed array of one object, yet the text
    from the first opening bracket to the last closing bracket is not JSON,
    and no item is returned. *)
Lemma extract_action_items_prose_with_brackets :
  let array := jq "[{`task`:`Book room`}]" in
  let response := u "See [1]: " ++ array in
  let R := answering response in
  json_loads (Runtime := R) array = Ok (JArr [JObj {[ u "task" := JStr (u "Book room") ]}])
  ∧ action_items_of sample_email [JObj {[ u "task" := JStr (u "Book room") ]}]
    = [mkActionItem (JStr (u "Book room")) JNull (Some 7)]
  ∧ fst (extract_action_items (RT := R) sample_email ∅ world_with_key) = Ok [].
Proof. vm_compute. repeat split. Qed.

End ProcessorsExamples.

(* ===================================================================== *)
(** * backend/prompts_manager.py *)
(* ===================================================================== *)

Section PromptsManagerFacts.

Import PromptsManager.

Lemma default_prompts_have_all_slots : has_all_slots get_default_prompts.
Proof.
  intros k Hk. unfold slots in Hk.
  repeat (apply elem_of_cons in Hk as [->|Hk]; [by vm_compute; eexists|]).
  by apply elem_of_nil in Hk.
Qed.

(** C1, as amended.  When the backing store is absent or unreadable,
    [load_prompts] returns the built-in default set, which has all five
    keys.  When the store can be read, [load_prompts] returns its content as
    it is: nothing is filled in at load time.  A key that is missing from
    the loaded set is resolved where it is looked up, [prompts.get(key,
    fallback)] giving the fallback. *)
Theorem load_prompts_result (f : file (gmap pystr pystr)) :
  has_all_slots get_default_prompts
  ∧ match f with
    | Missing | Unreadable _ => load_prompts f = Ok get_default_prompts
    | Holds stored => load_prompts f = Ok stored
    end
  ∧ (∀ prompts key fallback,
       load_prompts f = Ok prompts → prompts !! key = None →
       dict_get prompts key fallback = fallback).
Proof.
  split; [apply default_prompts_have_all_slots|]. split; [by destruct f|].
  intros prompts key fallback _ Hkey. unfold dict_get. by rewrite Hkey.
Qed.

(** C1 on a store that holds only the categorization template: the summary
    template is looked up with its fallback. *)
Lemma load_prompts_result_witness :
  dict_get {[ u "categorization" := u "Label the email." ]}
           (u "summary") (u "Summarize this email.")
  = u "Summarize this email.".
Proof.
  apply (proj2 (proj2 (load_prompts_result
                         (Holds {[ u "categorization" := u "Label the email." ]})))).
  - reflexivity.
  - vm_compute. reflexivity.
Defined.

(** C1 as stated fails on a partial store: a store holding only the
    categorization template loads as it is, without a summary key. *)
Lemma load_prompts_partial_store :
  let partial : gmap pystr pystr := {[ u "categorization" := u "Label the email." ]} in
  load_prompts (Holds partial) = Ok partial
  ∧ partial !! u "summary" = None
  ∧ ¬ has_all_slots partial.
Proof.
  intros partial. split; [done|]. split; [by vm_compute|].
  intros Hall. destruct (Hall (u "summary")) as [v Hv].
  - unfold slots. do 3 right. left.
  - vm_compute in Hv. discriminate.
Qed.

End PromptsManagerFacts.

(* ===================================================================== *)
(** * backend/inbox_loader.py *)
(* ===================================================================== *)

Section InboxLoaderFacts.

Import InboxLoader Spec.

Lemma parse_item_record_of el :
  parse_item el = match record_of el with
                  | Some email => Ok email
                  | None => Raise (AttributeError (u "object has no attribute 'get'"))
                  end.
Proof. by destruct el. Qed.

Lemma load_items_spec data emails :
  load_items data emails = emails ++ omap record_of data.
Proof.
  revert emails. induction data as [|el data IH]; intros emails; simpl.
  - by rewrite app_nil_r.
  - rewrite parse_item_record_of. destruct (record_of el); rewrite IH; [|done].
    by rewrite <- app_assoc.
Qed.

(** C8, as amended.  [load_inbox] is total.  A missing or unreadable source,
    and a document that cannot be iterated, yield the empty record set.
    Otherwise every record object of the source loads, in order, with each
    of its seven fields taken from the object or, when absent, from the
    default of the field; the default of [id] is 0, so no field is
    required.  Elements that are not objects are skipped. *)
Theorem load_inbox_result (f : file document) :
  (∃ emails, load_inbox f = Ok emails) ∧
  match f with
  | Missing | Unreadable _ | Holds NotIterable => load_inbox f = Ok []
  | Holds (Iterable xs) => load_inbox f = Ok (omap record_of xs)
  end.
Proof.
  destruct f as [|e|[xs|]]; simpl; (split; [eexists; reflexivity|]); try done.
  unfold load_inbox. simpl. unfold mret, outcome_ret. by rewrite load_items_spec.
Qed.

(** C8 as stated fails on a record object without id: it loads, with id 0
    and the other defaults. *)
Lemma load_inbox_record_without_id :
  load_inbox (Holds (Iterable [Object (mkItem None None None None None None None)]))
  = Ok [mkEmail 0 (u "unknown@example.com") (u "user@company.com") (u "No Subject")
                (u "") (u "") (u "INBOX") None].
Proof. reflexivity. Qed.

(** C10. [get_email_by_id] returns the first email of the list whose id is
    the one asked for, and [None] when no email of the list has that id. *)
Theorem get_email_by_id_first (emails : list Email) (email_id : Z) :
  match get_email_by_id emails email_id with
  | Some email =>
      ∃ before after,
        emails = before ++ email :: after
        ∧ id email = email_id
        ∧ Forall (λ e, id e ≠ email_id) before
  | None => Forall (λ e, id e ≠ email_id) emails
  end.
Proof.
  induction emails as [|e emails IH]; simpl; [done|].
  destruct (Z.eqb_spec (id e) email_id) as [Heq|Hne].
  - exists [], emails. done.
  - destruct (get_email_by_id emails email_id) as [email|].
    + destruct IH as (before & after & -> & Hid & Hbefore).
      exists (e :: before), after. split; [done|]. split; [done|].
      by constructor.
    + by constructor.
Qed.

(** A lookup that finds the second of two records with the same id's
    neighbour, and one that finds nothing. *)
Example get_email_by_id_examples :
  let a := mkEmail 1 (u "a@x.org") (u "me@x.org") (u "A") (u "") (u "") (u "INBOX") None in
  let b := mkEmail 2 (u "b@x.org") (u "me@x.org") (u "B") (u "") (u "") (u "INBOX") None in
  let b' := mkEmail 2 (u "c@x.org") (u "me@x.org") (u "C") (u "") (u "") (u "INBOX") None in
  get_email_by_id [a; b; b'] 2 = Some b ∧ get_email_by_id [a; b; b'] 3 = None.
Proof. by vm_compute. Qed.

End InboxLoaderFacts.

(* ===================================================================== *)
(** * backend/agent.py: the urgency intent *)
(* ===================================================================== *)

Section AgentFacts.

Context `{RT : Runtime}.
Import LlmClient Processors Agent Spec.

Lemma foldl_append {A} (f : A → pystr) (xs : list A) (acc : pystr) :
  foldl (λ result x, result ++ f x) acc xs = acc ++ mjoin (f <$> xs).
Proof.
  revert acc. induction xs as [|x xs IH]; intros acc; simpl.
  - by rewrite app_nil_r.
  - rewrite IH. by rewrite <- app_assoc.
Qed.

Lemma listing_lines_concat xs : listing_lines xs = mjoin (listing_line <$> take 5 xs).
Proof. unfold listing_lines. by rewrite foldl_append. Qed.

Lemma more_suffix_spec xs :
  let n := Z.of_nat (length xs) in
  more_suffix xs
  = if bool_decide (5 < n) then [LF] ++ u "... and " ++ of_Z (n - 5) ++ u " more" else [].
Proof.
  simpl. unfold more_suffix.
  destruct (Z.ltb_spec 5 (Z.of_nat (length xs))); case_bool_decide; done || lia.
Qed.

(** The listing the code builds is the answer the specification describes. *)
Lemma important_listing_spec inbox : important_listing inbox = important_answer inbox.
Proof.
  unfold important_listing, important_answer. cbv zeta.
  destruct (List.filter (has_category (u "Important")) inbox) as [|e es] eqn:E.
  - rewrite bool_decide_eq_true_2 by reflexivity. reflexivity.
  - rewrite bool_decide_eq_false_2 by discriminate.
    rewrite listing_lines_concat, more_suffix_spec. reflexivity.
Qed.

(** C6, as amended.  For every query that mentions urgency or importance and
    is not taken by an earlier intent (no email selected, or no summarize or
    task cue together with a this/email cue), the router answers from the
    records whose category is Important: the fixed none-found message when
    there are none; otherwise a header, one bulleted line per record for at
    most five of them, and the suffix naming how many more there are when
    there are more than five.  The world is returned as it was: the Gateway
    is not called. *)
Theorem run_agent_query_important user_query selected_email prompts inbox w :
  important_cue (str_lower user_query) = true →
  earlier_intent selected_email (str_lower user_query) = false →
  run_agent_query user_query selected_email prompts inbox w
  = (Ok (important_answer inbox), w).
Proof.
  intros Hcue Hearlier. unfold run_agent_query.
  assert (∀ sp um, inbox_patterns (str_lower user_query) sp um inbox w
                   = (Ok (important_answer inbox), w)) as Hpat.
  { intros sp um. unfold inbox_patterns. rewrite Hcue.
    by rewrite important_listing_spec. }
  destruct selected_email as [sel|]; [|apply Hpat].
  simpl in Hearlier. apply orb_false_iff in Hearlier as [-> ->]. apply Hpat.
Qed.

End AgentFacts.

Section AgentExamples.

Import LlmClient Processors Agent Spec ReferenceRuntime.

(** C6 on seven records labelled Important among nine: five lines, and a
    suffix that says two more; nothing is sent to the service. *)
Lemma run_agent_query_important_witness :
  run_agent_query (RT := answering (u "unused")) (u "Show me the IMPORTANT emails")
    None ∅ inbox_with_seven_important world_with_key
  = (Ok (u "🔴 **Important Emails (7):**" ++ [LF] ++
         [LF] ++
         u "- **ID 1**: Subject 1 (from sender1@example.com)" ++ [LF] ++
         u "- **ID 2**: Subject 2 (from sender2@example.com)" ++ [LF] ++
         u "- **ID 3**: Subject 3 (from sender3@example.com)" ++ [LF] ++
         u "- **ID 4**: Subject 4 (from sender4@example.com)" ++ [LF] ++
         u "- **ID 6**: Subject 6 (from sender6@example.com)" ++ [LF] ++
         [LF] ++
         u "... and 2 more"),
     world_with_key).
Proof.
  rewrite (run_agent_query_important (RT := answering (u "unused"))
             (u "Show me the IMPORTANT emails") None ∅ inbox_with_seven_important
             world_with_key).
  - vm_compute. reflexivity.
  - vm_compute. reflexivity.
  - vm_compute. reflexivity.
Defined.

(** With no record labelled Important the fixed message comes back, and
    nothing is sent. *)
Example run_agent_query_none_important :
  run_agent_query (RT := answering (u "unused")) (u "show me important emails")
    None ∅ [numbered 1 (Some (u "Spam")); numbered 2 None] world_with_key
  = (Ok (u "No emails marked as Important."), world_with_key).
Proof. vm_compute. reflexivity. Qed.

(** C6 as stated fails when an earlier intent takes the query: with an email
    selected, a query that mentions importance and also asks to summarize
    this email is answered by the Gateway, not by the listing. *)
Lemma run_agent_query_summarize_before_important :
  let R := answering (u "A short summary.") in
  let query := u "Summarize this important email" in
  let inbox := [numbered 1 (Some (u "Important"))] in
  let result := run_agent_query (RT := R) query (Some sample_email) ∅ inbox world_with_key in
  important_cue (str_lower (Runtime := R) query) = true
  ∧ fst result = Ok (u "📧 **Summary of Email #7:**" ++ [LF; LF] ++ u "A short summary.")
  ∧ fst result ≠ Ok (important_answer inbox)
  ∧ length (sent (snd result)) = 1%nat.
Proof. vm_compute. repeat split. discriminate. Qed.

End AgentExamples.

(* ===================================================================== *)
(** * app.py: who writes the category *)
(* ===================================================================== *)

Section AppFacts.

Context `{RT : Runtime}.
Import LlmClient Processors App.

(** The assignment changes the category and nothing else. *)
Lemma set_category_frame e c :
  category (set_category e c) = c
  ∧ id (set_category e c) = id e
  ∧ from_addr (set_category e c) = from_addr e
  ∧ to_addr (set_category e c) = to_addr e
  ∧ subject (set_category e c) = subject e
  ∧ body (set_category e c) = body e
  ∧ timestamp (set_category e c) = timestamp e
  ∧ raw_folder (set_category e c) = raw_folder e.
Proof. repeat split. Qed.

Lemma process_one_spec idx s w email :
  emails s !! idx = Some email →
  ∃ c w1 actions w',
    categorize_email email (prompts s) w = (Ok c, w1)
    ∧ c ∈ valid_categories
    ∧ process_one idx s w
      = (Ok (Session (<[idx := set_category email (Some c)]> (emails s))
                     (prompts s)
                     (<[id email := (c, actions)]> (processed s))
                     (api_key_set s)
                     (category_writes s ++ [idx])), w').
Proof.
  intros Hidx. unfold process_one. rewrite Hidx.
  destruct (categorize_email_total email (prompts s) w) as (c & w1 & Hc & Hvalid).
  destruct (extract_action_items_total email (prompts s) w1) as (actions & w2 & Ha).
  exists c, w1, actions, w2. split; [done|]. split; [done|].
  unfold mbind, M_bind. rewrite Hc, Ha. reflexivity.
Qed.

(** The loop from position [idx] on: the records before [idx] are not
    touched; each record from [idx] on has its category assigned once, with
    the label [categorize_email] returned for it. *)
Lemma process_from_spec n : ∀ idx s w,
  (idx + n)%nat = length (emails s) →
  ∃ s' w',
    process_from idx n s w = (Ok s', w')
    ∧ length (emails s') = length (emails s)
    ∧ category_writes s' = category_writes s ++ seq idx n
    ∧ (∀ i, (i < idx)%nat → emails s' !! i = emails s !! i)
    ∧ (∀ i e, (idx ≤ i)%nat → emails s !! i = Some e →
         ∃ c wa wb,
           categorize_email e (prompts s) wa = (Ok c, wb)
           ∧ c ∈ valid_categories
           ∧ emails s' !! i = Some (set_category e (Some c))).
Proof.
  induction n as [|n IH]; intros idx s w Hlen.
  - exists s, w. simpl. rewrite app_nil_r. repeat split; try done.
    intros i e Hi He. apply lookup_lt_Some in He. lia.
  - assert (is_Some (emails s !! idx)) as [email Hidx] by (apply lookup_lt_is_Some; lia).
    destruct (process_one_spec idx s w email Hidx)
      as (c & w0 & actions & w1 & Hcat & Hvalid & Hone).
    set (s1 := Session _ _ _ _ _) in Hone.
    destruct (IH (S idx) s1 w1) as (s' & w' & Hrun & Hlen' & Hwrites & Hbefore & Hafter).
    { simpl. rewrite length_insert. lia. }
    exists s', w'. split.
    { simpl. unfold mbind, M_bind. by rewrite Hone. }
    simpl in Hlen', Hwrites. rewrite length_insert in Hlen'.
    split; [done|]. split.
    { rewrite Hwrites. by rewrite <- app_assoc. }
    split.
    + intros i Hi. rewrite Hbefore by lia. simpl.
      apply list_lookup_insert_ne. lia.
    + intros i e Hi He. destruct (decide (i = idx)) as [->|Hne].
      * exists c, w, w0. rewrite Hidx in He. injection He as <-.
        split; [done|]. split; [done|]. rewrite Hbefore by lia. simpl.
        by rewrite list_lookup_insert_eq by lia.
      * apply (Hafter i e); [lia|]. simpl. rewrite list_lookup_insert_ne by lia. done.
Qed.

(** One iteration, with the two Gateway operations it runs and the worlds
    between them. *)
Lemma process_one_trace idx s w email :
  emails s !! idx = Some email →
  ∃ c w1 actions w',
    categorize_email email (prompts s) w = (Ok c, w1)
    ∧ extract_action_items email (prompts s) w1 = (Ok actions, w')
    ∧ c ∈ valid_categories
    ∧ process_one idx s w
      = (Ok (Session (<[idx := set_category email (Some c)]> (emails s))
                     (prompts s)
                     (<[id email := (c, actions)]> (processed s))
                     (api_key_set s)
                     (category_writes s ++ [idx])), w').
Proof.
  intros Hidx. unfold process_one. rewrite Hidx.
  destruct (categorize_email_total email (prompts s) w) as (c & w1 & Hc & Hvalid).
  destruct (extract_action_items_total email (prompts s) w1) as (actions & w2 & Ha).
  exists c, w1, actions, w2. do 3 (split; [done|]).
  unfold mbind, M_bind. rewrite Hc, Ha. reflexivity.
Qed.

(** The loop from position [idx] on, with the worlds it goes through:
    [ws] holds the world before each of the [n] iterations and the world
    after the last.  The record at position [idx + k] is categorized in the
    k-th world of [ws], and gets the label returned there. *)
Lemma process_from_trace n : ∀ idx s w,
  (idx + n)%nat = length (emails s) →
  ∃ s' w' (ws : list world),
    process_from idx n s w = (Ok s', w')
    ∧ length ws = S n
    ∧ ws !! 0%nat = Some w
    ∧ ws !! n = Some w'
    ∧ length (emails s') = length (emails s)
    ∧ category_writes s' = category_writes s ++ seq idx n
    ∧ (∀ i, (i < idx)%nat → emails s' !! i = emails s !! i)
    ∧ (∀ k e, emails s !! (idx + k)%nat = Some e →
         ∃ wk wk' c w1 actions,
           ws !! k = Some wk
           ∧ ws !! S k = Some wk'
           ∧ categorize_email e (prompts s) wk = (Ok c, w1)
           ∧ extract_action_items e (prompts s) w1 = (Ok actions, wk')
           ∧ c ∈ valid_categories
           ∧ emails s' !! (idx + k)%nat = Some (set_category e (Some c))).
Proof.
  induction n as [|n IH]; intros idx s w Hlen.
  - exists s, w, [w]. simpl. rewrite app_nil_r. do 6 (split; [done|]). split; [done|].
    intros k e He. apply lookup_lt_Some in He. lia.
  - assert (is_Some (emails s !! idx)) as [email Hidx] by (apply lookup_lt_is_Some; lia).
    destruct (process_one_trace idx s w email Hidx)
      as (c & w0 & actions & w1 & Hcat & Hext & Hvalid & Hone).
    set (s1 := Session _ _ _ _ _) in Hone.
    destruct (IH (S idx) s1 w1)
      as (s' & w' & ws & Hrun & Hws & Hfirst & Hlast & Hlen' & Hwrites & Hbefore & Hafter).
    { simpl. rewrite length_insert. lia. }
    exists s', w', (w :: ws). split.
    { simpl. unfold mbind, M_bind. by rewrite Hone. }
    simpl in Hlen', Hwrites. rewrite length_insert in Hlen'.
    split; [simpl; by rewrite Hws|]. split; [done|]. split; [done|].
    split; [done|]. split.
    { rewrite Hwrites. by rewrite <- app_assoc. }
    split.
    + intros i Hi. rewrite Hbefore by lia. simpl.
      apply list_lookup_insert_ne. lia.
    + intros k e He. destruct k as [|k].
      * rewrite Nat.add_0_r in He. rewrite Hidx in He. injection He as <-.
        exists w, w1, c, w0, actions. split; [done|]. split; [done|].
        do 3 (split; [done|]).
        rewrite Nat.add_0_r, Hbefore by lia. simpl.
        by rewrite list_lookup_insert_eq by lia.
      * replace (idx + S k)%nat with (S idx + k)%nat in * by lia.
        destruct (Hafter k e) as (wk & wk' & c' & w1' & actions' & H1 & H2 & H3 & H4 & H5 & H6).
        { simpl. rewrite list_lookup_insert_ne by lia. done. }
        exists wk, wk', c', w1', actions'. by repeat (split; [done|]).
Qed.

(** C9, as amended.  The category of a record is written by the processing
    pass [process_all_emails], with the label [categorize_email] returns.
    The pass always completes.  With the API key configured it goes through
    the records in list order: [ws] lists the worlds of the pass, from the
    world it starts in to the world it ends in; the record at position [i]
    is handed to [categorize_email] in the i-th of these worlds, then to
    [extract_action_items], which leaves the next world, and the label that
    call of [categorize_email] returned is assigned as the category of the
    record.  No other field of a record and not the number of records is
    changed, and the trace of assignments shows exactly one write per
    record, in order.  Without the key the pass changes nothing and sends
    nothing. *)
Theorem process_all_emails_writes_category s w :
  ∃ s' w' (ws : list world),
    process_all_emails s w = (Ok s', w')
    ∧ if api_key_set s then
        length (emails s') = length (emails s)
        ∧ length ws = S (length (emails s))
        ∧ ws !! 0%nat = Some w
        ∧ ws !! length (emails s) = Some w'
        ∧ (∀ i e, emails s !! i = Some e →
             ∃ wi wi' c w1 actions,
               ws !! i = Some wi
               ∧ ws !! S i = Some wi'
               ∧ categorize_email e (prompts s) wi = (Ok c, w1)
               ∧ extract_action_items e (prompts s) w1 = (Ok actions, wi')
               ∧ c ∈ valid_categories
               ∧ emails s' !! i = Some (set_category e (Some c)))
        ∧ category_writes s' = category_writes s ++ seq 0 (length (emails s))
      else s' = s ∧ w' = w.
Proof.
  unfold process_all_emails. destruct (api_key_set s); simpl.
  - destruct (process_from_trace (length (emails s)) 0 s w eq_refl)
      as (s' & w' & ws & Hrun & Hws & Hfirst & Hlast & Hlen & Hwrites & _ & Hafter).
    exists s', w', ws. do 5 (split; [done|]). split; [|done].
    intros i e He. apply (Hafter i e He).
  - exists s, w, []. done.
Qed.

End AppFacts.

Section AppExamples.

Import LlmClient Processors App ReferenceRuntime.

(** C9 on a session of one record and a service that answers Spam: the
    label written is the one [categorize_email] returns in the world the pass
    starts in, and the trace has the one write. *)
Lemma process_all_emails_writes_category_witness :
  let R := answering (u "Spam") in
  let s := Session [sample_email] ∅ ∅ true [] in
  match fst (process_all_emails (RT := R) s world_with_key) with
  | Ok s' =>
      emails s' !! 0%nat = Some (set_category sample_email (Some (u "Spam")))
      ∧ category_writes s' = [0%nat]
  | Raise _ => False
  end.
Proof.
  intros R s.
  destruct (process_all_emails_writes_category (RT := R) s world_with_key)
    as (s' & w' & ws & Hrun & _ & _ & Hfirst & _ & Hrecords & Hwrites).
  rewrite Hrun. simpl. split; [|exact Hwrites].
  destruct (Hrecords 0%nat sample_email eq_refl)
    as (wi & wi' & c & w1 & actions & Hwi & _ & Hcat & _ & _ & ->).
  rewrite Hfirst in Hwi. injection Hwi as <-.
  vm_compute in Hcat. injection Hcat as <- _. reflexivity.
Defined.

(** C9 as stated fails: [categorize_email] returns the label and assigns
    nothing (the record it was given has no category, before and after); the
    category is set by the processing pass, whose trace shows the write. *)
Lemma category_written_by_the_pass :
  let R := answering (u "Spam") in
  let s := Session [sample_email] ∅ ∅ true [] in
  fst (categorize_email (RT := R) sample_email ∅ world_with_key) = Ok (u "Spam")
  ∧ category sample_email = None
  ∧ match fst (process_all_emails (RT := R) s world_with_key) with
    | Ok s' =>
        emails s' = [set_category sample_email (Some (u "Spam"))]
        ∧ category_writes s' = [0%nat]
    | Raise _ => False
    end.
Proof. vm_compute. repeat split. Qed.

End AppExamples.

(* ===================================================================== *)
(** * backend/llm_client.py: what a call sends and returns *)
(* ===================================================================== *)

Section GatewayFacts.

Context `{RT : Runtime}.
Import LlmClient Notions.

(** The model a request names: the override when given and not empty, else
    [MODEL_NAME] of the environment, else gpt-4o-mini. *)
Lemma call_llm_with_key sp uc model w key :
  environ w !! u "OPENAI_API_KEY" = Some key →
  nonempty key = true →
  call_llm sp uc model w
  = match openai_client key with
    | Raise e => (Ok (describe_error e), w)
    | Ok _ =>
        let model_name :=
          if opt_truthy model then default [] model
          else default (u "gpt-4o-mini") (environ w !! u "MODEL_NAME") in
        let req := Request key model_name sp uc (7 # 10)%Q 1000 in
        let w' := World (environ w) (sent w ++ [req]) (clock w) in
        match openai_create (sent w) req with
        | Raise e => (Ok (describe_error e), w')
        | Ok response =>
            match first_choice_stripped response with
            | Ok s => (Ok s, w')
            | Raise e => (Ok (describe_error e), w')
            end
        end
    end.
Proof.
  intros Hkey Hne.
  unfold call_llm, try_except, mbind, M_bind, mret, M_ret, getenv, getenv_default,
    lift, chat_completions_create.
  rewrite Hkey. cbn [opt_truthy default]. rewrite Hne. cbn [negb].
  change (Datatypes.id key) with key.
  destruct (openai_client key) as [[]|e0]; [|done].
  destruct (opt_truthy model); cbv zeta;
    destruct (openai_create _ _) as [response|e1]; try done;
    destruct (first_choice_stripped response); done.
Qed.

(** X1. With a credential configured, a client that can be built and a
    service that answers, [call_llm] sends exactly one request (the key, the
    model override or else [MODEL_NAME] or else gpt-4o-mini, the two
    messages as given, temperature 0.7, 1000 tokens) and returns the
    content of the first choice, stripped. *)
Theorem call_llm_success sp uc model w key content rest :
  environ w !! u "OPENAI_API_KEY" = Some key →
  nonempty key = true →
  openai_client key = Ok () →
  openai_create (sent w)
    (Request key
       (if opt_truthy model then default [] model
        else default (u "gpt-4o-mini") (environ w !! u "MODEL_NAME"))
       sp uc (7 # 10)%Q 1000)
  = Ok (Some content :: rest) →
  call_llm sp uc model w
  = (Ok (strip content),
     World (environ w)
           (sent w ++ [Request key
                         (if opt_truthy model then default [] model
                          else default (u "gpt-4o-mini") (environ w !! u "MODEL_NAME"))
                         sp uc (7 # 10)%Q 1000])
           (clock w)).
Proof.
  intros Hkey Hne Hclient Hcreate.
  rewrite (call_llm_with_key _ _ _ _ _ Hkey Hne), Hclient. cbv zeta.
  unfold pystr in *. by rewrite Hcreate.
Qed.

(** X3. With a credential configured, every failure comes back as the
    description of its exception: a client that cannot be built (nothing is
    sent), a request the service refuses, a response without choices, a
    first choice without content (one request sent, in each of the three). *)
Theorem call_llm_failure sp uc model w key :
  environ w !! u "OPENAI_API_KEY" = Some key →
  nonempty key = true →
  let req :=
    Request key
      (if opt_truthy model then default [] model
       else default (u "gpt-4o-mini") (environ w !! u "MODEL_NAME"))
      sp uc (7 # 10)%Q 1000 in
  let w' := World (environ w) (sent w ++ [req]) (clock w) in
  (∀ e, openai_client key = Raise e →
        call_llm sp uc model w = (Ok (describe_error e), w))
  ∧ (∀ e, openai_client key = Ok () → openai_create (sent w) req = Raise e →
          call_llm sp uc model w = (Ok (describe_error e), w'))
  ∧ (openai_client key = Ok () → openai_create (sent w) req = Ok [] →
     call_llm sp uc model w
     = (Ok (describe_error (IndexError (u "list index out of range"))), w'))
  ∧ (∀ rest, openai_client key = Ok () →
             openai_create (sent w) req = Ok (None :: rest) →
             call_llm sp uc model w
             = (Ok (describe_error
                      (AttributeError (u "'NoneType' object has no attribute 'strip'"))), w')).
Proof.
  intros Hkey Hne req w'.
  pose proof (call_llm_with_key sp uc model w key Hkey Hne) as Hcall.
  cbv zeta in Hcall. subst req w'. unfold pystr in *.
  repeat split.
  - intros e He. by rewrite Hcall, He.
  - intros e Hc He. by rewrite Hcall, Hc, He.
  - intros Hc He. by rewrite Hcall, Hc, He.
  - intros rest Hc He. by rewrite Hcall, Hc, He.
Qed.

Lemma sends_at_most_refl n w : sends_at_most n w w.
Proof. repeat split. exists []. rewrite app_nil_r. split; [done|simpl; lia]. Qed.

Lemma sends_at_most_trans n m w1 w2 w3 :
  sends_at_most n w1 w2 → sends_at_most m w2 w3 → sends_at_most (n + m) w1 w3.
Proof.
  intros (He1 & Hc1 & r1 & Hs1 & Hl1) (He2 & Hc2 & r2 & Hs2 & Hl2).
  split; [congruence|]. split; [congruence|].
  exists (r1 ++ r2). rewrite Hs2, Hs1, <- app_assoc. split; [done|].
  rewrite length_app. lia.
Qed.

Lemma sends_at_most_mono n m w w' :
  (n ≤ m)%nat → sends_at_most n w w' → sends_at_most m w w'.
Proof.
  intros Hnm (He & Hc & r & Hs & Hl). repeat split; try done.
  exists r. split; [done|lia].
Qed.

Lemma call_llm_sends sp uc model w s w' :
  call_llm sp uc model w = (Ok s, w') → sends_at_most 1 w w'.
Proof.
  unfold call_llm, try_except, mbind, M_bind, mret, M_ret, getenv, getenv_default,
    lift, chat_completions_create.
  assert (∀ r, sends_at_most 1 w (World (environ w) (sent w ++ [r]) (clock w))) as Hone.
  { intros r. repeat split. exists [r]. done. }
  destruct (negb (opt_truthy (environ w !! u "OPENAI_API_KEY"))).
  { intros [= <- <-]. apply sends_at_most_refl. }
  destruct (openai_client _) as [[]|e0]; [|intros [= <- <-]; apply sends_at_most_refl].
  destruct (opt_truthy model);
    (destruct (openai_create _ _) as [response|e1]; [|intros [= <- <-]; apply Hone]);
    destruct (first_choice_stripped response); intros [= <- <-]; apply Hone.
Qed.

(** X2. [call_llm] makes a single attempt: whatever the service does, it
    returns after at most one request, and it changes neither the
    environment nor the clock. *)
Theorem call_llm_single_attempt sp uc model w :
  ∃ s w', call_llm sp uc model w = (Ok s, w') ∧ sends_at_most 1 w w'.
Proof.
  destruct (call_llm_total sp uc model w) as (s & w' & Hcall).
  exists s, w'. split; [done|]. by eapply call_llm_sends.
Qed.

End GatewayFacts.

Section GatewayExamples.

Import LlmClient ReferenceRuntime.

(** X1 on a world with a key and without [MODEL_NAME]. *)
Lemma call_llm_success_witness :
  call_llm (RT := answering (u "  Spam  ")) (u "Categorize this email.") (u "Subject: Hi")
           None world_with_key
  = (Ok (u "Spam"),
     World (environ world_with_key)
           [Request (u "sk-test") (u "gpt-4o-mini") (u "Categorize this email.")
                    (u "Subject: Hi") (7 # 10)%Q 1000]
           (clock world_with_key)).
Proof.
  rewrite (call_llm_success (RT := answering (u "  Spam  ")) (u "Categorize this email.")
             (u "Subject: Hi") None world_with_key (u "sk-test") (u "  Spam  ") []).
  - vm_compute. reflexivity.
  - vm_compute. reflexivity.
  - reflexivity.
  - reflexivity.
  - reflexivity.
Defined.

(** X3 on a service that refuses every request: the connection error of the
    replayed script comes back as an LLM error, after one request. *)
Lemma call_llm_failure_witness :
  fst (call_llm (RT := scripted []) (u "Categorize this email.") (u "Subject: Hi")
                None world_with_key)
  = Ok (u "⚠️ LLM Error: Connection error.").
Proof.
  rewrite (proj1 (proj2 (call_llm_failure (RT := scripted []) (u "Categorize this email.")
                           (u "Subject: Hi") None world_with_key (u "sk-test")
                           ltac:(vm_compute; reflexivity) ltac:(vm_compute; reflexivity)))
             (Exception (u "APIConnectionError") (u "Connection error."))).
  - vm_compute. reflexivity.
  - reflexivity.
  - vm_compute. reflexivity.
Defined.

End GatewayExamples.

(* ===================================================================== *)
(** * backend/processors.py: failures, labels, and the decoded span *)
(* ===================================================================== *)

Section LabelFacts.

Import Processors Spec.

Lemma rstrip_cons_keep c s : is_space c = false → ∃ t, rstrip (c :: s) = c :: t.
Proof.
  intros Hc. simpl. destruct (rstrip s); rewrite ?Hc; eauto.
Qed.

(** A response whose first character is neither whitespace, nor a line
    feed, nor the first letter of a label, is labelled Important. *)
Lemma label_of_response_other_head c t :
  is_space c = false → c ∉ [73; 78; 83; 84]%N →
  label_of_response (c :: t) = u "Important".
Proof.
  intros Hc Hhead. unfold label_of_response. simpl line.
  destruct (N.eqb_spec c LF) as [->|_]; [done|].
  unfold strip. simpl lstrip. rewrite Hc.
  destruct (rstrip_cons_keep c (line t) Hc) as [t' ->].
  rewrite bool_decide_eq_false_2; [done|].
  intros Hin. apply Hhead. unfold valid_categories in Hin.
  repeat (apply elem_of_cons in Hin as [Heq|Hin];
          [vm_compute in Heq; injection Heq as -> _; set_solver|]).
  by apply elem_of_nil in Hin.
Qed.

Lemma label_of_warning t : label_of_response (9888%N :: t) = u "Important".
Proof.
  apply label_of_response_other_head; [done|].
  intros Hin. repeat (apply elem_of_cons in Hin as [[=]|Hin]). by apply elem_of_nil in Hin.
Qed.

Lemma line_app_no_lf x s : LF ∉ x → line (x ++ s) = x ++ line s.
Proof.
  induction x as [|c x IH]; simpl; [done|]. intros Hnot.
  apply not_elem_of_cons in Hnot as [Hne Hnot].
  destruct (N.eqb_spec c LF); [done|]. by rewrite IH.
Qed.

Lemma line_space_then_break ws rest :
  all_space ws = true → (rest = [] ∨ ∃ r, rest = LF :: r) →
  all_space (line (ws ++ rest)) = true.
Proof.
  intros Hws Hrest. induction ws as [|c ws IH]; simpl.
  - destruct Hrest as [->|[r ->]]; done.
  - simpl in Hws. apply andb_true_iff in Hws as [Hc Hws].
    destruct (c =? LF)%N; [done|]. simpl. by rewrite Hc, IH.
Qed.

(** A label, some whitespace, and then nothing or further lines: the label. *)
Lemma label_of_response_label label ws rest :
  label ∈ valid_categories → all_space ws = true →
  (rest = [] ∨ ∃ r, rest = LF :: r) →
  label_of_response (label ++ ws ++ rest) = label.
Proof.
  intros Hlabel Hws Hrest. unfold label_of_response.
  assert ((LF ∉ label) ∧ strip label = label) as [Hlf Hstrip].
  { unfold valid_categories in Hlabel.
    repeat (apply elem_of_cons in Hlabel as [->|Hlabel];
            [split; [apply (bool_decide_unpack _); by vm_compute | by vm_compute]|]).
    by apply elem_of_nil in Hlabel. }
  rewrite (line_app_no_lf _ _ Hlf).
  rewrite (strip_app_space _ _ (line_space_then_break ws rest Hws Hrest)).
  rewrite Hstrip. by rewrite bool_decide_eq_true_2.
Qed.

End LabelFacts.

Section ProcessorsMore.

Context `{RT : Runtime}.
Import LlmClient Processors Spec.

Lemma app_head (c : N) (t x m : pystr) : x = c :: t → x ++ m = c :: (t ++ m).
Proof. by intros ->. Qed.

Lemma describe_error_head e : ∃ t, describe_error e = 9888%N :: t.
Proof.
  unfold describe_error.
  repeat match goal with |- context [if ?b then _ else _] => destruct b end.
  - exists (tail MSG_AUTHENTICATION). by vm_compute.
  - exists (tail MSG_RATE_LIMIT). by vm_compute.
  - eexists. apply (app_head 9888%N
                      (tail (u "⚠️ Model Error: The specified model may not be available. Error: "))).
    by vm_compute.
  - eexists. apply (app_head 9888%N (tail (u "⚠️ LLM Error: "))). by vm_compute.
Qed.

(** X4. When the Gateway fails, the email is labelled Important: without a
    credential [categorize_email] returns Important and sends nothing, and
    whenever [call_llm] answers with the description of an exception
    (authentication, rate limit, model, or any other error) the label is
    Important as well. *)
Theorem categorize_email_gateway_failure email prompts w :
  (opt_truthy (environ w !! u "OPENAI_API_KEY") = false →
   categorize_email email prompts w = (Ok (u "Important"), w))
  ∧ (∀ e w',
       call_llm (dict_get prompts (u "categorization") (u "Categorize this email."))
                (email_text email) None w = (Ok (describe_error e), w') →
       categorize_email email prompts w = (Ok (u "Important"), w')).
Proof.
  split.
  - intros Hkey.
    rewrite (categorize_email_unfold email prompts w MSG_NO_API_KEY w)
      by (by apply call_llm_without_key).
    f_equal.
  - intros e w' Hcall. rewrite (categorize_email_unfold _ _ _ _ _ Hcall).
    destruct (describe_error_head e) as [t ->]. by rewrite label_of_warning.
Qed.

(** X5. When the Gateway response is one of the four labels, followed by
    whitespace and then by nothing or by further lines, [categorize_email]
    returns that label: an explanation after the first line does not
    matter. *)
Theorem categorize_email_recognises_label email prompts w w' label ws rest :
  label ∈ valid_categories →
  all_space ws = true →
  (rest = [] ∨ ∃ r, rest = LF :: r) →
  call_llm (dict_get prompts (u "categorization") (u "Categorize this email."))
           (email_text email) None w = (Ok (label ++ ws ++ rest), w') →
  categorize_email email prompts w = (Ok label, w').
Proof.
  intros Hlabel Hws Hrest Hcall.
  rewrite (categorize_email_unfold _ _ _ _ _ Hcall).
  by rewrite label_of_response_label.
Qed.

Lemma action_items_of_email_id email elements :
  Forall (λ a, email_id a = Some (id email)) (action_items_of email elements).
Proof.
  induction elements as [|v elements IH]; simpl; [constructor|].
  unfold action_items_of in *. simpl.
  destruct v; simpl; try done. by constructor.
Qed.

Lemma action_items_of_length email elements :
  (length (action_items_of email elements) ≤ length elements)%nat.
Proof.
  induction elements as [|v elements IH]; simpl; [done|].
  unfold action_items_of in *. simpl. destruct (action_item_of email v); simpl; lia.
Qed.

Lemma parse_action_items_email_id email response items :
  parse_action_items email response = Ok items →
  Forall (λ a, email_id a = Some (id email)) items.
Proof.
  unfold parse_action_items, mbind, outcome_bind.
  destruct (json_loads _) as [v|]; [|done].
  destruct (iterate v) as [tasks|]; [|done].
  unfold mret, outcome_ret. intros [= <-]. rewrite convert_spec. simpl.
  apply action_items_of_email_id.
Qed.

(** X6. Whatever the Gateway answers and whatever the decoder makes of it,
    every action item [extract_action_items] returns carries the id of the
    email it was extracted from. *)
Theorem extract_action_items_email_id email prompts w :
  ∃ items w',
    extract_action_items email prompts w = (Ok items, w')
    ∧ Forall (λ a, email_id a = Some (id email)) items.
Proof.
  destruct (call_llm_with_json_total
              (dict_get prompts (u "action_item") (u "Extract tasks from the email."))
              (email_text email) None w) as (response & w' & Hcall).
  rewrite (extract_action_items_unfold _ _ _ _ _ Hcall).
  eexists _, w'. split; [done|].
  destruct (parse_action_items email response) eqn:E; [|constructor].
  by eapply parse_action_items_email_id.
Qed.

End ProcessorsMore.

Section SpanFacts.

Import Processors.
Implicit Types s pre post mid rest : pystr.

Lemma first_occurrence c s :
  c ∉ s ∨ ∃ pre rest, s = pre ++ c :: rest ∧ c ∉ pre.
Proof.
  induction s as [|a s IH]; [left; apply not_elem_of_nil|].
  destruct (decide (a = c)) as [->|Hne].
  - right. exists [], s. split; [done|apply not_elem_of_nil].
  - destruct IH as [Hnot|(pre & rest & -> & Hpre)].
    + left. by apply not_elem_of_cons.
    + right. exists (a :: pre), rest. split; [done|]. by apply not_elem_of_cons.
Qed.

Lemma last_occurrence c s :
  c ∉ s ∨ ∃ x post, s = x ++ c :: post ∧ c ∉ post.
Proof.
  induction s as [|a s IH]; [left; apply not_elem_of_nil|].
  destruct IH as [Hnot|(x & post & -> & Hpost)].
  - destruct (decide (a = c)) as [->|Hne].
    + right. by exists [], s.
    + left. by apply not_elem_of_cons.
  - right. by exists (a :: x), post.
Qed.

Lemma find_absent c s : c ∉ s → find c s = -1.
Proof.
  induction s as [|a s IH]; simpl; [done|]. intros Hnot.
  apply not_elem_of_cons in Hnot as [Hne Hnot]. rewrite (IH Hnot).
  destruct (N.eqb_spec a c) as [->|_]; done.
Qed.

Lemma rfind_bound c s : rfind c s < Z.of_nat (length s).
Proof.
  induction s as [|a s IH]; simpl; [lia|].
  destruct (Z.leb_spec 0 (rfind c s)); [lia|].
  destruct (a =? c)%N; lia.
Qed.

Lemma rfind_app_absent c s rest : c ∉ rest → rfind c (s ++ rest) = rfind c s.
Proof.
  intros Hnot. induction s as [|a s IH]; simpl.
  - by apply rfind_absent.
  - by rewrite IH.
Qed.

(** X7. The text [extract_action_items] hands to the decoder is either the
    whole response (when it has no opening bracket, or no closing bracket
    after the first opening one) or exactly the span from the first opening
    bracket to the last closing bracket. *)
Theorem json_text_span response :
  ((LBRACKET ∉ response) ∧ json_text response = response)
  ∨ (∃ pre rest,
       response = pre ++ [LBRACKET] ++ rest
       ∧ (LBRACKET ∉ pre) ∧ (RBRACKET ∉ rest)
       ∧ json_text response = response)
  ∨ (∃ pre mid post,
       response = pre ++ [LBRACKET] ++ mid ++ [RBRACKET] ++ post
       ∧ (LBRACKET ∉ pre) ∧ (RBRACKET ∉ post)
       ∧ json_text response = [LBRACKET] ++ mid ++ [RBRACKET]).
Proof.
  destruct (first_occurrence LBRACKET response) as [Hnot|(pre & rest & -> & Hpre)].
  - left. split; [done|]. unfold json_text. by rewrite (find_absent _ _ Hnot).
  - right. destruct (last_occurrence RBRACKET rest) as [Hnot|(mid & post & -> & Hpost)].
    + left. exists pre, rest. repeat split; try done.
      unfold json_text. rewrite (find_app_here _ _ _ Hpre).
      assert (RBRACKET ∉ LBRACKET :: rest) as Hnot'.
      { apply not_elem_of_cons. split; [done|done]. }
      rewrite (rfind_app_absent _ pre _ Hnot').
      pose proof (rfind_bound RBRACKET pre) as Hb.
      case_match eqn:Hcond; [|done].
      apply andb_true_iff in Hcond as [_ ?%Z.ltb_lt]. lia.
    + right. exists pre, mid, post. repeat split; try done.
      by apply json_text_bracketed.
Qed.

End SpanFacts.

Section ProcessorsMoreExamples.

Import LlmClient Processors Spec ReferenceRuntime.

(** X4 without credential. *)
Lemma categorize_email_gateway_failure_witness :
  categorize_email (RT := answering (u "Spam")) sample_email ∅ world_without_key
  = (Ok (u "Important"), world_without_key).
Proof.
  apply (proj1 (categorize_email_gateway_failure (RT := answering (u "Spam"))
                  sample_email ∅ world_without_key)).
  vm_compute. reflexivity.
Defined.

(** X5 on a label followed by an explanation on the next line. *)
Lemma categorize_email_recognises_label_witness :
  fst (categorize_email (RT := answering (u "To-Do" ++ [LF] ++ u "The sender asks for a reply."))
         sample_email ∅ world_with_key)
  = Ok (u "To-Do").
Proof.
  pose (R := answering (u "To-Do" ++ [LF] ++ u "The sender asks for a reply.")).
  pose (w1 := snd (call_llm (RT := R)
                     (dict_get ∅ (u "categorization") (u "Categorize this email."))
                     (email_text sample_email) None world_with_key)).
  rewrite (categorize_email_recognises_label (RT := R) sample_email ∅ world_with_key w1
             (u "To-Do") [] ([LF] ++ u "The sender asks for a reply.")).
  - reflexivity.
  - apply (bool_decide_unpack _). vm_compute. exact I.
  - reflexivity.
  - right. eexists. reflexivity.
  - vm_compute. reflexivity.
Defined.

End ProcessorsMoreExamples.

(* ===================================================================== *)
(** * backend/agent.py: the other intents *)
(* ===================================================================== *)

Section RouterFacts.

Context `{RT : Runtime}.
Import LlmClient Processors Agent Spec Notions.

Lemma summarize_email_run email prompts w :
  ∃ summary w',
    call_llm (dict_get prompts (u "summary") (u "Summarize this email."))
             (summary_text email) None w = (Ok summary, w')
    ∧ summarize_email email prompts w = (Ok summary, w')
    ∧ sends_at_most 1 w w'.
Proof.
  destruct (call_llm_total (dict_get prompts (u "summary") (u "Summarize this email."))
              (summary_text email) None w) as (summary & w' & Hcall).
  exists summary, w'. split; [done|]. split.
  - unfold summarize_email, mbind, M_bind. by rewrite Hcall.
  - by eapply call_llm_sends.
Qed.

Lemma extract_action_items_run email prompts w :
  ∃ actions w',
    extract_action_items email prompts w = (Ok actions, w') ∧ sends_at_most 1 w w'.
Proof.
  destruct (call_llm_with_json_total
              (dict_get prompts (u "action_item") (u "Extract tasks from the email."))
              (email_text email) None w) as (response & w' & Hcall).
  rewrite (extract_action_items_unfold _ _ _ _ _ Hcall).
  eexists _, w'. split; [done|]. by eapply call_llm_sends.
Qed.

Lemma inbox_patterns_run query_lower system_prompt user_message inbox w :
  ∃ answer w',
    inbox_patterns query_lower system_prompt user_message inbox w = (Ok answer, w')
    ∧ sends_at_most 1 w w'.
Proof.
  unfold inbox_patterns.
  destruct (important_cue query_lower).
  { eexists _, w. split; [done|apply sends_at_most_refl]. }
  destruct (todo_cue query_lower).
  { eexists _, w. split; [done|apply sends_at_most_refl]. }
  destruct (call_llm_total system_prompt user_message None w) as (answer & w' & Hcall).
  exists answer, w'. split.
  - unfold mbind, M_bind. by rewrite Hcall.
  - by eapply call_llm_sends.
Qed.

(** X8. With an email selected, a query with a summarize cue and a
    this/email cue is answered by the summary of the selected email: the
    Gateway is called once, with the summary template and the text of that
    email, and its answer comes back under the summary header. *)
Theorem run_agent_query_summarize user_query sel prompts inbox w :
  summarize_cue (str_lower user_query) = true →
  this_email_cue (str_lower user_query) = true →
  ∃ summary w',
    call_llm (dict_get prompts (u "summary") (u "Summarize this email."))
             (summary_text sel) None w = (Ok summary, w')
    ∧ run_agent_query user_query (Some sel) prompts inbox w
      = (Ok (u "📧 **Summary of Email #" ++ of_Z (id sel) ++ u ":**" ++ [LF; LF] ++ summary),
         w').
Proof.
  intros Hs Ht.
  destruct (summarize_email_run sel prompts w) as (summary & w' & Hcall & Hsum & _).
  exists summary, w'. split; [done|].
  unfold run_agent_query. rewrite Hs, Ht. cbn [andb].
  unfold mbind, M_bind. by rewrite Hsum.
Qed.

(** X9. With an email selected, a query with a task, to-do or action cue
    and a this/email cue (and no summarize cue with it) is answered from the
    action items of the selected email: the fixed no-tasks message when
    there are none, else one line per item under the tasks header.  The
    to-do listing of the inbox is not consulted. *)
Theorem run_agent_query_tasks user_query sel prompts inbox w :
  summarize_cue (str_lower user_query) = false →
  task_cue (str_lower user_query) = true →
  this_email_cue (str_lower user_query) = true →
  ∃ actions w',
    extract_action_items sel prompts w = (Ok actions, w')
    ∧ run_agent_query user_query (Some sel) prompts inbox w
      = (Ok (match actions with
             | [] => MSG_NO_TASKS
             | _ :: _ =>
                 u "✅ **Tasks from Email #" ++ of_Z (id sel) ++ u ":**" ++ [LF; LF] ++
                 join [LF] (task_line <$> actions)
             end), w').
Proof.
  intros Hs Hk Ht.
  destruct (extract_action_items_run sel prompts w) as (actions & w' & Hext & _).
  exists actions, w'. split; [done|].
  unfold run_agent_query. rewrite Hs, Hk, Ht. cbn [andb].
  unfold mbind, M_bind. rewrite Hext. destruct actions; reflexivity.
Qed.

(** X10. A query with a to-do cue that no earlier intent takes and that does
    not mention urgency or importance is answered from the records whose
    category is To-Do, without calling the Gateway: the fixed message when
    there are none, else a header with their number, one line for each of
    the first five, and the suffix naming how many more there are. *)
Theorem run_agent_query_todo user_query selected_email prompts inbox w :
  earlier_intent selected_email (str_lower user_query) = false →
  important_cue (str_lower user_query) = false →
  todo_cue (str_lower user_query) = true →
  let todo := List.filter (has_category (u "To-Do")) inbox in
  let n := Z.of_nat (length todo) in
  run_agent_query user_query selected_email prompts inbox w
  = (Ok (if bool_decide (todo = []) then MSG_NO_TODO
         else
           u "📋 **To-Do Emails (" ++ of_Z n ++ u "):**" ++ [LF; LF] ++
           mjoin (listing_line <$> take 5 todo) ++
           (if bool_decide (5 < n)
            then [LF] ++ u "... and " ++ of_Z (n - 5) ++ u " more" else [])),
     w).
Proof.
  intros Hearlier Himp Htodo todo n.
  assert (∀ sp um, inbox_patterns (str_lower user_query) sp um inbox w
                   = (Ok (todo_listing inbox), w)) as Hpat.
  { intros sp um. unfold inbox_patterns. by rewrite Himp, Htodo. }
  assert (run_agent_query user_query selected_email prompts inbox w
          = (Ok (todo_listing inbox), w)) as ->.
  { unfold run_agent_query. destruct selected_email as [sel|]; [|apply Hpat].
    simpl in Hearlier. apply orb_false_iff in Hearlier as [-> ->]. apply Hpat. }
  do 2 f_equal. unfold todo_listing. fold todo. subst n.
  destruct todo as [|e es] eqn:E.
  - rewrite bool_decide_eq_true_2 by reflexivity. reflexivity.
  - rewrite bool_decide_eq_false_2 by discriminate.
    rewrite listing_lines_concat, more_suffix_spec. reflexivity.
Qed.

(** X11. A query that matches no intent goes to the Gateway once, with the
    general-agent template followed by the capabilities text as system
    prompt, and with the inbox overview, the selected email and the query
    as user message; the answer is returned as it is. *)
Theorem run_agent_query_general user_query selected_email prompts inbox w :
  earlier_intent selected_email (str_lower user_query) = false →
  important_cue (str_lower user_query) = false →
  todo_cue (str_lower user_query) = false →
  ∃ answer w',
    call_llm
      (dict_get prompts (u "general_agent") (u "You are an Email Productivity Agent.")
       ++ CAPABILITIES)
      (inbox_overview inbox ++ [LF] ++ [LF] ++ email_context selected_email ++ [LF] ++
       [LF] ++ u "User Query: " ++ user_query)
      None w = (Ok answer, w')
    ∧ run_agent_query user_query selected_email prompts inbox w = (Ok answer, w').
Proof.
  intros Hearlier Himp Htodo.
  destruct (call_llm_total
              (dict_get prompts (u "general_agent") (u "You are an Email Productivity Agent.")
               ++ CAPABILITIES)
              (inbox_overview inbox ++ [LF] ++ [LF] ++ email_context selected_email ++ [LF] ++
               [LF] ++ u "User Query: " ++ user_query)
              None w) as (answer & w' & Hcall).
  exists answer, w'. split; [done|].
  assert (∀ sp um, inbox_patterns (str_lower user_query) sp um inbox w
                   = call_llm sp um None w) as Hpat.
  { intros sp um. unfold inbox_patterns. rewrite Himp, Htodo.
    unfold mbind, M_bind, mret, M_ret. by destruct (call_llm sp um None w) as [[]]. }
  unfold run_agent_query. destruct selected_email as [sel|].
  - simpl in Hearlier. apply orb_false_iff in Hearlier as [-> ->].
    by rewrite Hpat.
  - by rewrite Hpat.
Qed.

Lemma run_agent_query_run user_query selected_email prompts inbox w :
  ∃ answer w',
    run_agent_query user_query selected_email prompts inbox w = (Ok answer, w')
    ∧ sends_at_most 1 w w'.
Proof.
  unfold run_agent_query. destruct selected_email as [sel|]; [|apply inbox_patterns_run].
  destruct (summarize_cue _ && this_email_cue _).
  { destruct (summarize_email_run sel prompts w) as (summary & w' & _ & Hsum & Hcost).
    eexists _, w'. split; [|done]. unfold mbind, M_bind. by rewrite Hsum. }
  destruct (task_cue _ && this_email_cue _); [|apply inbox_patterns_run].
  destruct (extract_action_items_run sel prompts w) as (actions & w' & Hext & Hcost).
  destruct actions as [|a actions]; eexists _, w'; (split; [|done]);
    unfold mbind, M_bind; rewrite Hext; reflexivity.
Qed.

(** X12. [run_agent_query] always returns an answer, and whatever the query
    it sends at most one request to the service and changes neither the
    environment nor the clock. *)
Theorem run_agent_query_cost user_query selected_email prompts inbox w :
  ∃ answer w',
    run_agent_query user_query selected_email prompts inbox w = (Ok answer, w')
    ∧ sends_at_most 1 w w'.
Proof. apply run_agent_query_run. Qed.

End RouterFacts.

Section RouterExamples.

Import LlmClient Processors Agent Spec ReferenceRuntime.

(** X8 on the selected sample email. *)
Lemma run_agent_query_summarize_witness :
  fst (run_agent_query (RT := answering (u "A short summary.")) (u "Please summarize this")
         (Some sample_email) ∅ [] world_with_key)
  = Ok (u "📧 **Summary of Email #7:**" ++ [LF; LF] ++ u "A short summary.").
Proof.
  destruct (run_agent_query_summarize (RT := answering (u "A short summary."))
              (u "Please summarize this") sample_email ∅ [] world_with_key)
    as (summary & w' & Hcall & ->).
  - vm_compute. reflexivity.
  - vm_compute. reflexivity.
  - vm_compute in Hcall. injection Hcall as <- _. reflexivity.
Defined.

(** X9 on a query that names the to-do listing while an email is selected:
    the tasks of the selected email are shown instead. *)
Lemma run_agent_query_tasks_witness :
  fst (run_agent_query (RT := answering (jq "[{`task`:`Book room`}]"))
         (u "Show my to-do emails") (Some sample_email) ∅
         [numbered 1 (Some (u "To-Do"))] world_with_key)
  = Ok (u "✅ **Tasks from Email #7:**" ++ [LF; LF] ++ u "- Book room").
Proof.
  destruct (run_agent_query_tasks (RT := answering (jq "[{`task`:`Book room`}]"))
              (u "Show my to-do emails") sample_email ∅
              [numbered 1 (Some (u "To-Do"))] world_with_key)
    as (actions & w' & Hext & ->).
  - vm_compute. reflexivity.
  - vm_compute. reflexivity.
  - vm_compute. reflexivity.
  - vm_compute in Hext. injection Hext as <- _. vm_compute. reflexivity.
Defined.

(** X10 with an email selected and two records labelled To-Do. *)
Lemma run_agent_query_todo_witness :
  run_agent_query (RT := answering (u "unused")) (u "What is on my TODO list?")
    (Some sample_email) ∅
    [numbered 1 (Some (u "To-Do")); numbered 2 (Some (u "Spam")); numbered 3 (Some (u "To-Do"))]
    world_with_key
  = (Ok (u "📋 **To-Do Emails (2):**" ++ [LF] ++
         [LF] ++
         u "- **ID 1**: Subject 1 (from sender1@example.com)" ++ [LF] ++
         u "- **ID 3**: Subject 3 (from sender3@example.com)" ++ [LF]),
     world_with_key).
Proof.
  rewrite (run_agent_query_todo (RT := answering (u "unused")) (u "What is on my TODO list?")
             (Some sample_email) ∅
             [numbered 1 (Some (u "To-Do")); numbered 2 (Some (u "Spam"));
              numbered 3 (Some (u "To-Do"))]
             world_with_key).
  - vm_compute. reflexivity.
  - vm_compute. reflexivity.
  - vm_compute. reflexivity.
  - vm_compute. reflexivity.
Defined.

(** X11 on a greeting. *)
Lemma run_agent_query_general_witness :
  fst (run_agent_query (RT := answering (u "Hello!")) (u "Good morning") None ∅ []
         world_with_key)
  = Ok (u "Hello!").
Proof.
  destruct (run_agent_query_general (RT := answering (u "Hello!")) (u "Good morning")
              None ∅ [] world_with_key)
    as (answer & w' & Hcall & ->).
  - reflexivity.
  - vm_compute. reflexivity.
  - vm_compute. reflexivity.
  - vm_compute in Hcall. injection Hcall as <- _. reflexivity.
Defined.

End RouterExamples.

(* ===================================================================== *)
(** * backend/agent.py: the category overview *)
(* ===================================================================== *)

Section OverviewFacts.

Import Agent Notions.

Lemma str_eqb_decide a b : str_eqb a b = bool_decide (a = b).
Proof. reflexivity. Qed.

Lemma count_up_get k cat d :
  items_get k (count_up cat d)
  = if bool_decide (k = cat) then Some (default 0 (items_get k d) + 1)
    else items_get k d.
Proof.
  induction d as [|[k' n] d IH]; cbn [count_up items_get]; unfold str_eqb.
  - cbn [items_get]. unfold str_eqb.
    repeat case_bool_decide; simplify_eq; done.
  - destruct (decide (k' = cat)) as [->|Hne].
    + rewrite (bool_decide_eq_true_2 (cat = cat)) by done.
      cbn [items_get]. unfold str_eqb.
      repeat case_bool_decide; simplify_eq; done.
    + rewrite (bool_decide_eq_false_2 (k' = cat)) by done.
      cbn [items_get]. unfold str_eqb. rewrite IH.
      repeat case_bool_decide; simplify_eq; done.
Qed.

Lemma count_up_keys cat d :
  (count_up cat d).*1 = if bool_decide (cat ∈ d.*1) then d.*1 else d.*1 ++ [cat].
Proof.
  induction d as [|[k' n] d IH]; cbn [count_up]; unfold str_eqb.
  - rewrite bool_decide_eq_false_2; [done|apply not_elem_of_nil].
  - destruct (decide (k' = cat)) as [->|Hne].
    + rewrite (bool_decide_eq_true_2 (cat = cat)) by done.
      rewrite bool_decide_eq_true_2; [done|simpl; left].
    + rewrite (bool_decide_eq_false_2 (k' = cat)) by done.
      cbn [fmap list_fmap fst]. rewrite IH. case_bool_decide as Hin.
      * rewrite bool_decide_eq_true_2; [done|by right].
      * rewrite bool_decide_eq_false_2; [done|].
        intros [?|?]%elem_of_cons; congruence.
Qed.

Lemma count_up_NoDup cat d : NoDup d.*1 → NoDup (count_up cat d).*1.
Proof.
  intros Hd. rewrite count_up_keys. case_bool_decide as Hin; [done|].
  apply NoDup_app. split; [done|]. split; [|apply NoDup_singleton].
  intros x Hx [->|[]%elem_of_nil]%elem_of_cons. done.
Qed.

Lemma emails_in_category_cons cat e inbox :
  emails_in_category cat (e :: inbox)
  = ((if bool_decide (category_or_uncategorized (category e) = cat) then 1 else 0)
     + emails_in_category cat inbox)%nat.
Proof.
  unfold emails_in_category. simpl. by case_bool_decide.
Qed.

Lemma breakdown_from d inbox :
  let result :=
    foldl (λ categories email,
             count_up (category_or_uncategorized (category email)) categories)
          d inbox in
  (NoDup d.*1 → NoDup result.*1)
  ∧ ∀ cat,
      items_get cat result
      = if decide (emails_in_category cat inbox = 0%nat) then items_get cat d
        else Some (default 0 (items_get cat d) + Z.of_nat (emails_in_category cat inbox)).
Proof.
  revert d. induction inbox as [|e inbox IH]; intros d; simpl.
  - split; [done|]. intros cat. done.
  - destruct (IH (count_up (category_or_uncategorized (category e)) d)) as [IHnd IHget].
    split; [intros Hd; by apply IHnd, count_up_NoDup|].
    intros cat. rewrite IHget, count_up_get, emails_in_category_cons.
    case_bool_decide as Hcat.
    + subst cat. rewrite bool_decide_eq_true_2 by done.
      repeat case_decide; try lia; simpl; f_equal; lia.
    + rewrite bool_decide_eq_false_2 by congruence.
      repeat case_decide; try lia; done.
Qed.

(** X13. The category overview counts every email once: the categories it
    lists are distinct, and the count it gives for a category is the number
    of emails of the inbox filed under it (an email without category, or
    with the empty category, is filed under Uncategorized); a category no
    email is filed under is not listed. *)
Theorem category_breakdown_counts inbox :
  NoDup (category_breakdown inbox).*1
  ∧ ∀ cat,
      items_get cat (category_breakdown inbox)
      = if decide (emails_in_category cat inbox = 0%nat) then None
        else Some (Z.of_nat (emails_in_category cat inbox)).
Proof.
  destruct (breakdown_from [] inbox) as [Hnd Hget]. split.
  - apply Hnd. constructor.
  - intros cat. unfold category_breakdown. rewrite Hget. simpl.
    case_decide; [done|]. f_equal.
Qed.

End OverviewFacts.

(* ===================================================================== *)
(** * backend/inbox_loader.py: after loading *)
(* ===================================================================== *)

Section AfterLoading.

Context `{RT : Runtime}.
Import InboxLoader Agent Spec.

Lemma record_of_uncategorized el email : record_of el = Some email → category email = None.
Proof. destruct el; simpl; [|done]. by intros [= <-]. Qed.

Lemma load_inbox_uncategorized f emails :
  load_inbox f = Ok emails → Forall (λ e, category e = None) emails.
Proof.
  destruct f as [|e|[xs|]]; simpl; intros [= <-]; try constructor.
  rewrite load_items_spec. simpl. apply Forall_forall. intros email Hin.
  apply list_elem_of_omap in Hin as (el & _ & Hel). by eapply record_of_uncategorized.
Qed.

Lemma filter_uncategorized label emails :
  Forall (λ e, category e = None) emails →
  List.filter (has_category label) emails = [].
Proof.
  induction 1 as [|e emails He _ IH]; simpl; [done|].
  unfold has_category at 1. rewrite He. by rewrite bool_decide_eq_false_2.
Qed.

(** X14. A freshly loaded inbox has no categorized email, so until a
    processing pass has run the listing intents find nothing: whatever the
    source file, a query with an urgency cue that no earlier intent takes is
    answered with the fixed none-important message, and a to-do query
    without urgency cue with the fixed none-to-do message, without calling
    the Gateway. *)
Theorem run_agent_query_after_loading f user_query selected_email prompts w :
  earlier_intent selected_email (str_lower user_query) = false →
  ∃ emails,
    load_inbox f = Ok emails
    ∧ Forall (λ e, category e = None) emails
    ∧ (important_cue (str_lower user_query) = true →
       run_agent_query user_query selected_email prompts emails w
       = (Ok MSG_NO_IMPORTANT, w))
    ∧ (important_cue (str_lower user_query) = false →
       todo_cue (str_lower user_query) = true →
       run_agent_query user_query selected_email prompts emails w
       = (Ok MSG_NO_TODO, w)).
Proof.
  intros Hearlier.
  assert (∃ emails, load_inbox f = Ok emails) as [emails Hload].
  { destruct f as [|e|[xs|]]; eexists; reflexivity. }
  pose proof (load_inbox_uncategorized f emails Hload) as Hnone.
  exists emails. split; [done|]. split; [done|].
  assert (run_agent_query user_query selected_email prompts emails w
          = inbox_patterns (str_lower user_query)
              (dict_get prompts (u "general_agent") (u "You are an Email Productivity Agent.")
               ++ CAPABILITIES)
              (inbox_overview emails ++ [LF] ++ [LF] ++ email_context selected_email ++ [LF] ++
               [LF] ++ u "User Query: " ++ user_query)
              emails w) as ->.
  { unfold run_agent_query. destruct selected_email as [sel|]; [|done].
    simpl in Hearlier. by apply orb_false_iff in Hearlier as [-> ->]. }
  unfold inbox_patterns, important_listing, todo_listing.
  rewrite !(filter_uncategorized _ _ Hnone). split.
  - by intros ->.
  - by intros -> ->.
Qed.

End AfterLoading.

Section LookupFacts.

Import InboxLoader.

(** X15. Looking up the id of an email of the list always finds an email
    with that id; when the ids of the list are distinct it finds that very
    email. *)
Theorem get_email_by_id_member (emails : list Email) :
  (∀ e, e ∈ emails → ∃ e', get_email_by_id emails (id e) = Some e' ∧ id e' = id e)
  ∧ (NoDup (id <$> emails) → ∀ e, e ∈ emails → get_email_by_id emails (id e) = Some e).
Proof.
  split.
  - induction emails as [|a emails IH]; intros e He; [by apply elem_of_nil in He|].
    simpl. destruct (Z.eqb_spec (id a) (id e)) as [Heq|Hne]; [by exists a|].
    apply elem_of_cons in He as [->|He]; [done|]. by apply IH.
  - induction emails as [|a emails IH]; intros Hnd e He; [by apply elem_of_nil in He|].
    simpl in Hnd. apply NoDup_cons in Hnd as [Ha Hnd]. simpl.
    apply elem_of_cons in He as [->|He].
    + by rewrite Z.eqb_refl.
    + destruct (Z.eqb_spec (id a) (id e)) as [Heq|Hne]; [|by apply IH].
      exfalso. apply Ha. rewrite Heq. by apply list_elem_of_fmap_2.
Qed.

End LookupFacts.

Section AfterLoadingExamples.

Import InboxLoader Agent Spec ReferenceRuntime.

(** X14 on a source with two records. *)
Lemma run_agent_query_after_loading_witness :
  match load_inbox (Holds (Iterable
          [Object (mkItem (Some 1) None None (Some (u "Urgent: invoice")) None None None);
           Object (mkItem (Some 2) None None None None None None)])) with
  | Ok emails =>
      run_agent_query (RT := answering (u "unused")) (u "Anything urgent?") None ∅ emails
        world_with_key
      = (Ok MSG_NO_IMPORTANT, world_with_key)
  | Raise _ => False
  end.
Proof.
  destruct (run_agent_query_after_loading (RT := answering (u "unused"))
              (Holds (Iterable
                 [Object (mkItem (Some 1) None None (Some (u "Urgent: invoice")) None None None);
                  Object (mkItem (Some 2) None None None None None None)]))
              (u "Anything urgent?") None ∅ world_with_key)
    as (emails & Hload & _ & Himportant & _).
  - reflexivity.
  - rewrite Hload. apply Himportant. vm_compute. reflexivity.
Defined.

(** X15 on two emails with distinct ids. *)
Lemma get_email_by_id_member_witness :
  get_email_by_id [numbered 1 None; numbered 2 (Some (u "Spam"))] 2
  = Some (numbered 2 (Some (u "Spam"))).
Proof.
  refine (proj2 (get_email_by_id_member [numbered 1 None; numbered 2 (Some (u "Spam"))])
                _ (numbered 2 (Some (u "Spam"))) _).
  - apply (bool_decide_unpack _). vm_compute. exact I.
  - right. left.
Defined.

End AfterLoadingExamples.

(* ===================================================================== *)
(** * app.py: the processing pass and its table of results *)
(* ===================================================================== *)

Section PassFacts.

Context `{RT : Runtime}.
Import LlmClient Processors App Spec.

(** The loop from position [idx] on, seen from the table [processed]: keys
    that are not the id of a record still to come keep their entry, and when
    those ids are distinct each record ends with the label its entry holds. *)
Lemma process_from_processed n : ∀ idx s w,
  (idx + n)%nat = length (emails s) →
  ∃ s' w',
    process_from idx n s w = (Ok s', w')
    ∧ (∀ i, (i < idx)%nat → emails s' !! i = emails s !! i)
    ∧ (∀ k, (∀ i e, (idx ≤ i)%nat → emails s !! i = Some e → id e ≠ k) →
            processed s' !! k = processed s !! k)
    ∧ ((∀ i j e1 e2, (idx ≤ i)%nat → (idx ≤ j)%nat →
          emails s !! i = Some e1 → emails s !! j = Some e2 → id e1 = id e2 → i = j) →
       ∀ i e, (idx ≤ i)%nat → emails s !! i = Some e →
         ∃ c actions,
           processed s' !! id e = Some (c, actions)
           ∧ emails s' !! i = Some (set_category e (Some c))).
Proof.
  induction n as [|n IH]; intros idx s w Hlen.
  - exists s, w. simpl. repeat split; try done.
    intros _ i e Hi He. apply lookup_lt_Some in He. lia.
  - assert (is_Some (emails s !! idx)) as [email Hidx] by (apply lookup_lt_is_Some; lia).
    destruct (process_one_spec idx s w email Hidx)
      as (c & w0 & actions & w1 & _ & _ & Hone).
    set (s1 := Session _ _ _ _ _) in Hone.
    assert (∀ j, (idx < j)%nat → emails s1 !! j = emails s !! j) as Hlater.
    { intros j Hj. simpl. apply list_lookup_insert_ne. lia. }
    destruct (IH (S idx) s1 w1) as (s' & w' & Hrun & Hbefore & Hkeys & Hrecords).
    { simpl. rewrite length_insert. lia. }
    exists s', w'. split.
    { simpl. unfold mbind, M_bind. by rewrite Hone. }
    split; [|split].
    + intros i Hi. rewrite Hbefore by lia. simpl. apply list_lookup_insert_ne. lia.
    + intros k Hk. rewrite Hkeys.
      * simpl. apply lookup_insert_ne. by apply (Hk idx email).
      * intros i e Hi He. rewrite Hlater in He by lia. apply (Hk i e); [lia|done].
    + intros Hinj i e Hi He. destruct (decide (i = idx)) as [->|Hne].
      * rewrite Hidx in He. injection He as <-. exists c, actions. split.
        -- rewrite Hkeys.
           ++ simpl. apply lookup_insert_eq.
           ++ intros j e' Hj He' Heq. rewrite Hlater in He' by lia.
              assert (j = idx) by (apply (Hinj j idx e' email); [lia|lia|done|done|done]).
              lia.
        -- rewrite Hbefore by lia. simpl. by rewrite list_lookup_insert_eq by lia.
      * apply Hrecords; [|lia|by rewrite Hlater by lia].
        intros i' j' e1 e2 Hi' Hj' H1 H2 Heq.
        rewrite Hlater in H1 by lia. rewrite Hlater in H2 by lia.
        apply (Hinj i' j' e1 e2); [lia|lia|done|done|done].
Qed.

(** X16. After a processing pass over an inbox whose ids are distinct, the
    table of results and the records agree: every record has an entry under
    its id, and the category of the record is the category of its entry.
    Entries under ids that are not in the inbox are left as they were. *)
Theorem process_all_emails_table s w :
  api_key_set s = true →
  NoDup (id <$> emails s) →
  ∃ s' w',
    process_all_emails s w = (Ok s', w')
    ∧ (∀ i e, emails s !! i = Some e →
         ∃ c actions,
           processed s' !! id e = Some (c, actions)
           ∧ emails s' !! i = Some (set_category e (Some c)))
    ∧ (∀ k, k ∉ id <$> emails s → processed s' !! k = processed s !! k).
Proof.
  intros Hkey Hnd. unfold process_all_emails. rewrite Hkey. simpl.
  destruct (process_from_processed (length (emails s)) 0 s w eq_refl)
    as (s' & w' & Hrun & _ & Hkeys & Hrecords).
  exists s', w'. split; [done|]. split.
  - intros i e He. apply Hrecords; [|lia|done].
    intros i' j' e1 e2 _ _ H1 H2 Heq.
    apply (NoDup_lookup (id <$> emails s) i' j' (id e1)); [done| |].
    + by rewrite list_lookup_fmap, H1.
    + by rewrite list_lookup_fmap, H2, Heq.
  - intros k Hk. apply Hkeys. intros i e _ He <-.
    apply Hk. apply list_elem_of_fmap_2. by eapply list_elem_of_lookup_2.
Qed.

(** With a service that refuses every request, the Gateway only returns its
    own messages. *)
Lemma call_llm_service_down sp uc model w s w' :
  (∀ history r, ∃ e, openai_create history r = Raise e) →
  call_llm sp uc model w = (Ok s, w') →
  s = MSG_NO_API_KEY ∨ ∃ e, s = describe_error e.
Proof.
  intros Hdown.
  unfold call_llm, try_except, mbind, M_bind, mret, M_ret, getenv, getenv_default,
    lift, chat_completions_create.
  destruct (negb (opt_truthy (environ w !! u "OPENAI_API_KEY"))).
  { intros [= <- <-]. by left. }
  destruct (openai_client _) as [[]|e0]; [|intros [= <- <-]; eauto].
  destruct (opt_truthy model);
    match goal with |- context [openai_create ?h ?r] =>
      destruct (Hdown h r) as [e1 ->] end;
    intros [= <- <-]; eauto.
Qed.

Lemma categorize_email_service_down email prompts w c w' :
  (∀ history r, ∃ e, openai_create history r = Raise e) →
  categorize_email email prompts w = (Ok c, w') →
  c = u "Important".
Proof.
  intros Hdown Hcat.
  destruct (call_llm_total (dict_get prompts (u "categorization") (u "Categorize this email."))
              (email_text email) None w) as (response & w1 & Hcall).
  rewrite (categorize_email_unfold _ _ _ _ _ Hcall) in Hcat. injection Hcat as <- _.
  destruct (call_llm_service_down _ _ _ _ _ _ Hdown Hcall) as [->|[e ->]].
  - by vm_compute.
  - destruct (describe_error_head e) as [t ->]. apply label_of_warning.
Qed.

(** X17. When the service refuses every request, a processing pass still
    completes and labels every record Important: a failure of the Gateway
    is not told apart from an important email. *)
Theorem process_all_emails_service_down s w :
  (∀ history r, ∃ e, openai_create history r = Raise e) →
  api_key_set s = true →
  ∃ s' w',
    process_all_emails s w = (Ok s', w')
    ∧ length (emails s') = length (emails s)
    ∧ ∀ i e, emails s !! i = Some e →
             emails s' !! i = Some (set_category e (Some (u "Important"))).
Proof.
  intros Hdown Hkey. unfold process_all_emails. rewrite Hkey. simpl.
  destruct (process_from_spec (length (emails s)) 0 s w eq_refl)
    as (s' & w' & Hrun & Hlen & _ & _ & Hafter).
  exists s', w'. split; [done|]. split; [done|].
  intros i e He. destruct (Hafter i e) as (c & wa & wb & Hcat & _ & ->); [lia|done|].
  by rewrite (categorize_email_service_down _ _ _ _ _ Hdown Hcat).
Qed.

End PassFacts.

Section PassExamples.

Import LlmClient Processors App ReferenceRuntime.

(** X16 on two records: after the pass the entry under id 2 holds the label
    of the second record. *)
Lemma process_all_emails_table_witness :
  let s := Session [numbered 1 None; numbered 2 None] ∅ ∅ true [] in
  match fst (process_all_emails (RT := answering (u "Newsletter")) s world_with_key) with
  | Ok s' =>
      ∃ c actions,
        processed s' !! 2 = Some (c, actions)
        ∧ emails s' !! 1%nat = Some (set_category (numbered 2 None) (Some c))
  | Raise _ => False
  end.
Proof.
  intros s.
  destruct (process_all_emails_table (RT := answering (u "Newsletter")) s world_with_key)
    as (s' & w' & Hrun & Hrecords & _).
  - reflexivity.
  - apply (bool_decide_unpack _). vm_compute. exact I.
  - rewrite Hrun. simpl. apply (Hrecords 1%nat (numbered 2 None)). reflexivity.
Defined.

(** X17 on a service whose script is empty: both records end Important. *)
Lemma process_all_emails_service_down_witness :
  let s := Session [numbered 1 None; numbered 2 (Some (u "Spam"))] ∅ ∅ true [] in
  match fst (process_all_emails (RT := scripted []) s world_with_key) with
  | Ok s' =>
      emails s' = [numbered 1 (Some (u "Important")); numbered 2 (Some (u "Important"))]
  | Raise _ => False
  end.
Proof.
  intros s.
  destruct (process_all_emails_service_down (RT := scripted []) s world_with_key)
    as (s' & w' & Hrun & Hlen & Hrecords).
  - intros history r. eexists. reflexivity.
  - reflexivity.
  - rewrite Hrun. simpl.
    apply list_eq. intros [|[|i]].
    + rewrite (Hrecords 0%nat (numbered 1 None)) by reflexivity. reflexivity.
    + rewrite (Hrecords 1%nat (numbered 2 (Some (u "Spam")))) by reflexivity. reflexivity.
    + simpl. apply lookup_ge_None. simpl in Hlen. lia.
Defined.

End PassExamples.

(* ===================================================================== *)
(** * backend/models.py: PromptConfig *)
(* ===================================================================== *)

Section PromptConfigFacts.

Import PromptsManager.

(** X18. [PromptConfig] normalises a template dictionary: converting a
    configuration to a dictionary and back gives the configuration again;
    converting a dictionary to a configuration and back gives a dictionary
    with exactly the five slots, each holding the stored template, or the
    empty string when the dictionary had none; other keys are dropped. *)
Theorem prompt_config_round_trip :
  (∀ c, PromptConfig.from_dict (PromptConfig.to_dict c) = c)
  ∧ (∀ d, has_all_slots (PromptConfig.to_dict (PromptConfig.from_dict d)))
  ∧ (∀ d k, k ∈ slots →
       PromptConfig.to_dict (PromptConfig.from_dict d) !! k = Some (default (u "") (d !! k)))
  ∧ (∀ d k, k ∉ slots →
       PromptConfig.to_dict (PromptConfig.from_dict d) !! k = None).
Proof.
  assert (∀ d k, k ∈ slots →
            PromptConfig.to_dict (PromptConfig.from_dict d) !! k
            = Some (default (u "") (d !! k))) as Hslot.
  { intros d k Hk. unfold slots in Hk.
    repeat (apply elem_of_cons in Hk as [->|Hk]; [reflexivity|]).
    by apply elem_of_nil in Hk. }
  split; [|split; [|split]].
  - intros [c1 c2 c3 c4 c5]. reflexivity.
  - intros d k Hk. rewrite (Hslot d k Hk). eauto.
  - exact Hslot.
  - intros d k Hk. unfold PromptConfig.to_dict. apply not_elem_of_list_to_map_1.
    exact Hk.
Qed.

End PromptConfigFacts.

(* ===================================================================== *)
(** * app.py: preview, chat and drafts *)
(* ===================================================================== *)

Section PresentationFacts.

Context `{RT : Runtime}.
Import LlmClient Processors Agent InboxLoader Presentation Notions.

(** X19. The body preview of the inbox list is never longer than 203
    characters: a body of at most 200 characters is shown as it is, a longer
    one is cut after its first 200 characters and three dots are added. *)
Theorem body_preview_bounds body :
  (length (body_preview body) ≤ 203)%nat
  ∧ take 200 (body_preview body) = take 200 body
  ∧ body_preview body
    = if decide (length body ≤ 200)%nat then body else take 200 body ++ u "...".
Proof.
  unfold body_preview, slice.
  change (Z.to_nat 200 - Z.to_nat 0)%nat with 200%nat.
  change (drop (Z.to_nat 0) body) with body.
  destruct (Z.ltb_spec 200 (Z.of_nat (length body))); case_decide; try lia.
  - split; [|split; [|done]].
    + rewrite length_app, length_take. change (length (u "...")) with 3%nat. lia.
    + rewrite take_app_le by (rewrite length_take; lia).
      rewrite take_take. f_equal.
  - split; [lia|done].
Qed.

Lemma get_email_by_id_found emails email_id e :
  get_email_by_id emails email_id = Some e → id e = email_id ∧ e ∈ emails.
Proof.
  induction emails as [|a emails IH]; simpl; [done|].
  destruct (Z.eqb_spec (id a) email_id) as [Heq|Hne].
  - intros [= <-]. split; [done|left].
  - intros Hget. destruct (IH Hget) as [Hid Hin]. split; [done|by right].
Qed.

Lemma get_email_by_id_some emails e :
  e ∈ emails → is_Some (get_email_by_id emails (id e)).
Proof.
  induction emails as [|a emails IH]; intros He; [by apply elem_of_nil in He|].
  simpl. destruct (Z.eqb_spec (id a) (id e)); [done|].
  apply elem_of_cons in He as [->|He]; [done|]. by apply IH.
Qed.

Lemma chat_response_run text s w :
  ∃ response w',
    chat_response text s w = (Ok response, w')
    ∧ sends_at_most 1 w w'
    ∧ (chat_api_key_set s = false → response = MSG_CHAT_NO_KEY ∧ w' = w).
Proof.
  unfold chat_response. destruct (chat_api_key_set s); simpl.
  - destruct (run_agent_query_run text (chat_selected_email s) (chat_prompts s)
                (chat_emails s) w) as (response & w' & Hrun & Hcost).
    exists response, w'. done.
  - exists MSG_CHAT_NO_KEY, w. split; [done|]. split; [apply sends_at_most_refl|done].
Qed.

(** X20. One chat turn appends exactly two messages to the history, the
    user input and then the response, and keeps everything before them; it
    always completes, sends at most one request, and changes nothing else
    of the session.  Without API key the response is the fixed message and
    nothing is sent. *)
Theorem handle_chat_input_history text s w :
  nonempty text = true →
  ∃ response s' w',
    handle_chat_input (Some text) s w = (Ok s', w')
    ∧ chat_history s'
      = chat_history s ++ [Message (u "user") text; Message (u "assistant") response]
    ∧ chat_emails s' = chat_emails s
    ∧ chat_prompts s' = chat_prompts s
    ∧ selected_email_id s' = selected_email_id s
    ∧ chat_api_key_set s' = chat_api_key_set s
    ∧ sends_at_most 1 w w'
    ∧ (chat_api_key_set s = false → response = MSG_CHAT_NO_KEY ∧ w' = w).
Proof.
  intros Htext.
  destruct (chat_response_run text s w) as (response & w' & Hrun & Hcost & Hkey).
  eexists response, _, w'. split.
  { unfold handle_chat_input. cbn [opt_truthy default]. rewrite Htext.
    change (Datatypes.id text) with text.
    unfold mbind, M_bind. rewrite Hrun. reflexivity. }
  simpl. rewrite <- app_assoc. split; [done|]. do 4 (split; [done|]).
  split; [exact Hcost | exact Hkey].
Qed.

(** X21. An email with id 0, the id [load_inbox] gives to a record that has
    none, is never the selected email of the chat: although looking it up
    would find it, the agent is called as if no email were selected. *)
Theorem chat_ignores_email_zero it email text s :
  item_id it = None →
  parse_item (Object it) = Ok email →
  email ∈ chat_emails s →
  selected_email_id s = Some (id email) →
  chat_api_key_set s = true →
  is_Some (get_email_by_id (chat_emails s) (id email))
  ∧ chat_selected_email s = None
  ∧ chat_response text s
    = run_agent_query text None (chat_prompts s) (chat_emails s).
Proof.
  intros Hid Hparse Hin Hsel Hkey.
  assert (id email = 0) as Hzero.
  { simpl in Hparse. injection Hparse as <-. simpl. by rewrite Hid. }
  split; [by apply get_email_by_id_some|].
  assert (chat_selected_email s = None) as Hnone.
  { unfold chat_selected_email. by rewrite Hsel, Hzero. }
  split; [done|].
  unfold chat_response. by rewrite Hkey, Hnone.
Qed.

Lemma draft_reply_run email prompts user_tone w :
  ∃ draft w',
    draft_reply email prompts user_tone w = (Ok draft, w')
    ∧ original_email_id draft = id email
    ∧ draft_subject draft = u "Re: " ++ subject email
    ∧ suggested_tone draft = user_tone
    ∧ sends_at_most 1 w w'.
Proof.
  destruct (call_llm_total (reply_system_prompt prompts user_tone)
              (reply_user_content email) None w) as (response & w' & Hcall).
  eexists _, w'. split.
  { unfold draft_reply, mbind, M_bind. rewrite Hcall.
    unfold now_isoformat, mret, M_ret. reflexivity. }
  simpl. do 3 (split; [reflexivity|]). by eapply call_llm_sends.
Qed.

(** X22. Generating a draft stores it under the id of the email, replacing
    the draft that was there: afterwards the entry of that id is a reply to
    that email in the chosen tone, the other entries are as before, the
    form is closed, and every stored draft still sits under the id of the
    email it answers.  Without API key nothing is generated or stored. *)
Theorem generate_draft_store email tone s w :
  (∀ k d, drafts s !! k = Some d → original_email_id d = k) →
  ∃ s' w',
    generate_draft email tone s w = (Ok s', w')
    ∧ (∀ k d, drafts s' !! k = Some d → original_email_id d = k)
    ∧ (∀ k, k ≠ id email → drafts s' !! k = drafts s !! k)
    ∧ if draft_api_key_set s then
        show_draft_form s' = false
        ∧ ∃ d, drafts s' !! id email = Some d
               ∧ draft_subject d = u "Re: " ++ subject email
               ∧ suggested_tone d = Some tone
      else s' = s ∧ w' = w.
Proof.
  intros Hinv. unfold generate_draft. destruct (draft_api_key_set s); simpl.
  - destruct (draft_reply_run email (draft_prompts s) (Some tone) w)
      as (draft & w' & Hrun & Hid & Hsubj & Htone & _).
    eexists _, w'. split.
    { unfold mbind, M_bind. rewrite Hrun. reflexivity. }
    simpl. repeat split.
    + intros k d. destruct (decide (k = id email)) as [->|Hne].
      * rewrite lookup_insert_eq. by intros [= <-].
      * rewrite lookup_insert_ne by done. apply Hinv.
    + intros k Hne. by rewrite lookup_insert_ne.
    + exists draft. by rewrite lookup_insert_eq.
  - exists s, w. done.
Qed.

End PresentationFacts.

Section PresentationExamples.

Import LlmClient Processors Agent InboxLoader Presentation ReferenceRuntime.

(** X20 without API key. *)
Lemma handle_chat_input_history_witness :
  let s := ChatState [sample_email] ∅ None [Message (u "user") (u "Hi")] false in
  match fst (handle_chat_input (RT := answering (u "unused")) (Some (u "Anything urgent?")) s
               world_with_key) with
  | Ok s' =>
      chat_history s'
      = [Message (u "user") (u "Hi"); Message (u "user") (u "Anything urgent?");
         Message (u "assistant") MSG_CHAT_NO_KEY]
  | Raise _ => False
  end.
Proof.
  intros s.
  destruct (handle_chat_input_history (RT := answering (u "unused")) (u "Anything urgent?") s
              world_with_key)
    as (response & s' & w' & Hrun & Hhistory & _ & _ & _ & _ & _ & Hkey).
  - reflexivity.
  - rewrite Hrun. simpl. rewrite Hhistory.
    destruct Hkey as [-> _]; reflexivity.
Defined.

(** X21 on the email a record without fields loads as. *)
Lemma chat_ignores_email_zero_witness :
  let it := mkItem None None None None None None None in
  let email := mkEmail 0 (u "unknown@example.com") (u "user@company.com") (u "No Subject")
                       (u "") (u "") (u "INBOX") None in
  let s := ChatState [email] ∅ (Some 0) [] true in
  chat_response (RT := answering (u "unused")) (u "summarize this email") s
  = run_agent_query (RT := answering (u "unused")) (u "summarize this email") None ∅ [email].
Proof.
  intros it email s.
  apply (chat_ignores_email_zero (RT := answering (u "unused")) it email
           (u "summarize this email") s).
  - reflexivity.
  - reflexivity.
  - left.
  - reflexivity.
  - reflexivity.
Defined.

(** X22 on a store that already holds a draft for the email. *)
Lemma generate_draft_store_witness :
  let old := mkDraftEmail 7 (u "Re: Quarterly review") (u "Old body") None ∅ (u "earlier") in
  let s := DraftState {[ 7 := old ]} true true ∅ in
  match fst (generate_draft (RT := answering (u "Thank you.")) sample_email (u "Friendly") s
               world_with_key) with
  | Ok s' =>
      show_draft_form s' = false
      ∧ ∃ d, drafts s' !! 7 = Some d
             ∧ draft_subject d = u "Re: " ++ u "Quarterly review"
             ∧ suggested_tone d = Some (u "Friendly")
  | Raise _ => False
  end.
Proof.
  intros old s.
  destruct (generate_draft_store (RT := answering (u "Thank you.")) sample_email
              (u "Friendly") s world_with_key)
    as (s' & w' & Hrun & _ & _ & Hstored).
  - intros k d. simpl. destruct (decide (k = 7)) as [->|Hne].
    + rewrite lookup_singleton_eq. by intros [= <-].
    + by rewrite lookup_singleton_ne.
  - rewrite Hrun. exact Hstored.
Defined.

End PresentationExamples.
